(** * Chromium Pong: a shallow embedding of the simulation core

    The embedded sources are [paddle.ts], [ball.ts], [score_display.ts],
    the [PONG_CONFIG] of [constants.ts] and the controller of [offline.ts]
    (key handling, [startGame], the frame callback [update],
    [updatePlaying], [updateAI], [updateScored]).

    - JavaScript [number]s are idealised as real numbers: [Math.cos],
      [Math.sin], [Math.sqrt], [Math.min], [Math.max] and [Math.abs] are
      the functions of the same name on [R]; the rounding of doubles is
      outside the model.  Scores, which the program initialises to zero and
      only ever increments, are integers.
    - Objects are records and a method returns the updated record, next to
      its result when it has one.
    - [Math.random] is an explicit stream of draws that a function consumes
      and hands back.
    - The [while] loop of [updateAI] takes fuel and answers [None] when the
      fuel runs out; [updateAI], [updatePlaying] and [update] inherit the
      option.
    - Canvas drawing, touch input and resizing do not take part in the
      properties below and are left out. *)

From Stdlib Require Import String Reals Lra Lia ZArith List Bool.
Import ListNotations.

Open Scope R_scope.

(** ** Comparisons of numbers as booleans *)

Definition Rltb (a b : R) : bool := if Rlt_dec a b then true else false.
Definition Rleb (a b : R) : bool := if Rle_dec a b then true else false.
Definition Rgtb (a b : R) : bool := Rltb b a.
Definition Rgeb (a b : R) : bool := Rleb b a.
Definition Reqb (a b : R) : bool := if Req_dec_T a b then true else false.
Definition Rneqb (a b : R) : bool := negb (Reqb a b).

(** ** [Math.random]: a stream of draws *)

Definition Random := nat -> R.

Definition Math_random (s : Random) : R * Random :=
  (s 0%nat, fun n => s (S n)).

(** ** constants.ts *)

Module PONG_CONFIG.
Definition PADDLE_WIDTH : R := 10.
Definition PADDLE_HEIGHT : R := 40.
Definition PADDLE_SPEED : R := 5.
Definition PADDLE_MARGIN : R := 20.
Definition BALL_SIZE : R := 8.
Definition BALL_SPEED : R := 4.
Definition WINNING_SCORE : Z := 11.
Definition AI_REACTION_SPEED : R := 85 / 100.
Definition SCORE_DELAY : R := 1000.
End PONG_CONFIG.

Record Dimensions := mkDimensions { dim_width : R; dim_height : R }.

Definition DEFAULT_DIMENSIONS : Dimensions :=
  {| dim_width := 600; dim_height := 150 |}.

(** The literal 16.67 by which both entities normalise a frame's time. *)
Definition NOMINAL_FRAME_MS : R := 1667 / 100.

(** ** paddle.ts *)

Record Bounds := mkBounds
  { b_x : R; b_y : R; b_width : R; b_height : R }.

Module Paddle.

Record t := mk
  { x : R; y : R; width : R; height : R; speed : R; canvasHeight : R }.

Definition with_y (p : t) (v : R) : t :=
  mk (x p) v (width p) (height p) (speed p) (canvasHeight p).

Definition with_x (p : t) (v : R) : t :=
  mk v (y p) (width p) (height p) (speed p) (canvasHeight p).

Definition new (x0 canvasHeight0 : R) : t :=
  {| x := x0;
     y := (canvasHeight0 - PONG_CONFIG.PADDLE_HEIGHT) / 2;
     width := PONG_CONFIG.PADDLE_WIDTH;
     height := PONG_CONFIG.PADDLE_HEIGHT;
     speed := PONG_CONFIG.PADDLE_SPEED;
     canvasHeight := canvasHeight0 |}.

Definition moveUp (p : t) (deltaTime : R) : t :=
  let movement := speed p * (deltaTime / NOMINAL_FRAME_MS) in
  with_y p (Rmax 0 (y p - movement)).

Definition moveDown (p : t) (deltaTime : R) : t :=
  let movement := speed p * (deltaTime / NOMINAL_FRAME_MS) in
  with_y p (Rmin (canvasHeight p - height p) (y p + movement)).

Definition moveToward (p : t) (targetY deltaTime reactionSpeed : R) : t :=
  let paddleCenter := y p + height p / 2 in
  let diff := targetY - paddleCenter in
  let movement := speed p * reactionSpeed * (deltaTime / NOMINAL_FRAME_MS) in
  if Rgtb (Rabs diff) movement then
    if Rgtb diff 0 then moveDown p (deltaTime * reactionSpeed)
    else moveUp p (deltaTime * reactionSpeed)
  else p.

Definition reset (p : t) : t :=
  with_y p ((canvasHeight p - height p) / 2).

Definition getBounds (p : t) : Bounds :=
  {| b_x := x p; b_y := y p; b_width := width p; b_height := height p |}.

(** The vertical range the paddle is meant to stay in. *)
Definition in_range (p : t) : Prop :=
  0 <= y p <= canvasHeight p - height p.

End Paddle.

(** ** ball.ts *)

Inductive Edge := left | right.

Module Ball.

Record t := mk
  { x : R; y : R; vx : R; vy : R; size : R;
    canvasWidth : R; canvasHeight : R; baseSpeed : R }.

Definition with_pos (b : t) (x' y' : R) : t :=
  mk x' y' (vx b) (vy b) (size b) (canvasWidth b) (canvasHeight b)
     (baseSpeed b).

Definition with_x (b : t) (x' : R) : t := with_pos b x' (y b).

Definition with_y (b : t) (y' : R) : t := with_pos b (x b) y'.

Definition with_vel (b : t) (vx' vy' : R) : t :=
  mk (x b) (y b) vx' vy' (size b) (canvasWidth b) (canvasHeight b)
     (baseSpeed b).

Definition new (canvasWidth0 canvasHeight0 : R) : t :=
  {| x := canvasWidth0 / 2 - PONG_CONFIG.BALL_SIZE / 2;
     y := canvasHeight0 / 2 - PONG_CONFIG.BALL_SIZE / 2;
     vx := 0;
     vy := 0;
     size := PONG_CONFIG.BALL_SIZE;
     canvasWidth := canvasWidth0;
     canvasHeight := canvasHeight0;
     baseSpeed := PONG_CONFIG.BALL_SPEED |}.

(** [launch], given the value [Math.random()] returned. *)
Definition launch_with (b : t) (towardPlayer : bool) (draw : R) : t :=
  let angle := (draw - 5 / 10) * PI / 2 in
  let direction := if towardPlayer then -1 else 1 in
  with_vel b (cos angle * baseSpeed b * direction)
             (sin angle * baseSpeed b).

Definition launch (b : t) (towardPlayer : bool) (s : Random) : t * Random :=
  let (draw, s') := Math_random s in
  (launch_with b towardPlayer draw, s').

(** The two wall tests of [update], in the order of the source. *)
Definition topWall (b : t) : t :=
  if Rleb (y b) 0 then with_vel (with_y b 0) (vx b) (- vy b) else b.

Definition bottomWall (b : t) : t :=
  if Rgeb (y b + size b) (canvasHeight b)
  then with_vel (with_y b (canvasHeight b - size b)) (vx b) (- vy b)
  else b.

Definition integrate (b : t) (deltaTime : R) : t :=
  let timeScale := deltaTime / NOMINAL_FRAME_MS in
  with_pos b (x b + vx b * timeScale) (y b + vy b * timeScale).

Definition edgeCheck (b : t) : option Edge :=
  if Rltb (x b + size b) 0 then Some left
  else if Rgtb (x b) (canvasWidth b) then Some right
  else None.

Definition update (b : t) (deltaTime : R) : t * option Edge :=
  let b1 := integrate b deltaTime in
  let b2 := topWall b1 in
  let b3 := bottomWall b2 in
  (b3, edgeCheck b3).

Definition overlaps (b : t) (bounds : Bounds) : bool :=
  Rltb (x b) (b_x bounds + b_width bounds) &&
  Rgtb (x b + size b) (b_x bounds) &&
  Rltb (y b) (b_y bounds + b_height bounds) &&
  Rgtb (y b + size b) (b_y bounds).

Definition currentSpeed (b : t) : R := sqrt (vx b * vx b + vy b * vy b).

Definition checkPaddleCollision (b : t) (paddle : Paddle.t) : t * bool :=
  let bounds := Paddle.getBounds paddle in
  if overlaps b bounds then
    let paddleCenter := b_y bounds + b_height bounds / 2 in
    let ballCenter := y b + size b / 2 in
    let relativeIntersect :=
      (ballCenter - paddleCenter) / (b_height bounds / 2) in
    let bounceAngle := relativeIntersect * (PI / 3) in
    let direction := if Rgtb (vx b) 0 then -1 else 1 in
    let newSpeed := Rmin (currentSpeed b * (105 / 100))
                         (baseSpeed b * (15 / 10)) in
    let b1 := with_vel b (cos bounceAngle * newSpeed * direction)
                         (sin bounceAngle * newSpeed) in
    let b2 := if Reqb direction (-1)
              then with_x b1 (b_x bounds - size b1)
              else with_x b1 (b_x bounds + b_width bounds) in
    (b2, true)
  else (b, false).

Definition reset (b : t) : t :=
  with_vel (with_pos b (canvasWidth b / 2 - size b / 2)
                       (canvasHeight b / 2 - size b / 2)) 0 0.

Definition isMoving (b : t) : bool :=
  Rneqb (vx b) 0 || Rneqb (vy b) 0.


End Ball.

(** ** score_display.ts *)

Inductive FlashSide := player | ai.

Module ScoreDisplay.

Record t := mk
  { playerScore : Z; aiScore : Z;
    flashTimer : R; flashDuration : R;
    isFlashing : bool; flashingSide : option FlashSide;
    canvasWidth : R; canvasHeight : R }.

Definition new (canvasWidth0 canvasHeight0 : R) : t :=
  {| playerScore := 0; aiScore := 0;
     flashTimer := 0; flashDuration := 150;
     isFlashing := false; flashingSide := None;
     canvasWidth := canvasWidth0; canvasHeight := canvasHeight0 |}.

Definition getPlayerScore (d : t) : Z := playerScore d.

Definition getAiScore (d : t) : Z := aiScore d.

Definition startFlash (d : t) (side : FlashSide) : t :=
  mk (playerScore d) (aiScore d) 0 (flashDuration d) true (Some side)
     (canvasWidth d) (canvasHeight d).

Definition setPlayerScore (d : t) (score : Z) : t :=
  if negb (Z.eqb score (playerScore d)) then
    startFlash
      (mk score (aiScore d) (flashTimer d) (flashDuration d)
          (isFlashing d) (flashingSide d) (canvasWidth d) (canvasHeight d))
      player
  else d.

Definition setAiScore (d : t) (score : Z) : t :=
  if negb (Z.eqb score (aiScore d)) then
    startFlash
      (mk (playerScore d) score (flashTimer d) (flashDuration d)
          (isFlashing d) (flashingSide d) (canvasWidth d) (canvasHeight d))
      ai
  else d.

Definition update (d : t) (deltaTime : R) : t :=
  if isFlashing d then
    let timer := flashTimer d + deltaTime in
    if Rgeb timer (flashDuration d * 6) then
      mk (playerScore d) (aiScore d) 0 (flashDuration d) false None
         (canvasWidth d) (canvasHeight d)
    else
      mk (playerScore d) (aiScore d) timer (flashDuration d)
         (isFlashing d) (flashingSide d) (canvasWidth d) (canvasHeight d)
  else d.

Definition reset (d : t) : t :=
  mk 0 0 0 (flashDuration d) false None (canvasWidth d) (canvasHeight d).

(** The calls a client can make on a score display. *)
Inductive op :=
| SetPlayerScore (score : Z)
| SetAiScore (score : Z)
| Update (deltaTime : R)
| Reset.

Definition apply (d : t) (o : op) : t :=
  match o with
  | SetPlayerScore n => setPlayerScore d n
  | SetAiScore n => setAiScore d n
  | Update dt => update d dt
  | Reset => reset d
  end.

Definition run (d : t) (ops : list op) : t := fold_left apply ops d.

(** A call that cannot lower a score: a setter that is handed at least
    the current score, as the controller's [getScore() + 1], or the
    animation update. *)
Definition raises (d : t) (o : op) : bool :=
  match o with
  | SetPlayerScore n => Z.leb (playerScore d) n
  | SetAiScore n => Z.leb (aiScore d) n
  | Update _ => true
  | Reset => false
  end.

Fixpoint raising (d : t) (ops : list op) : bool :=
  match ops with
  | [] => true
  | o :: rest => raises d o && raising (apply d o) rest
  end.

End ScoreDisplay.

(** ** offline.ts: the controller *)

Inductive GameState := WAITING | PLAYING | SCORED | GAME_OVER.

Definition GameState_eqb (a b : GameState) : bool :=
  match a, b with
  | WAITING, WAITING | PLAYING, PLAYING
  | SCORED, SCORED | GAME_OVER, GAME_OVER => true
  | _, _ => false
  end.

Module KEY_CODES.
Definition UP : Z := 38.
Definition DOWN : Z := 40.
Definition SPACE : Z := 32.
Definition W : Z := 87.
Definition S : Z := 83.
End KEY_CODES.

Module PongGame.

(** The controller once [init] has run: the four entities exist, which is
    what [update], [updatePlaying] and [updateAI] assert on entry. *)
Record t := mk
  { dimensions : Dimensions;
    playerPaddle : Paddle.t;
    aiPaddle : Paddle.t;
    ball : Ball.t;
    scoreDisplay : ScoreDisplay.t;
    state : GameState;
    time : R;
    keysPressed : list Z;
    scoreDelayTimer : R }.

Definition with_playerPaddle (g : t) (p : Paddle.t) : t :=
  mk (dimensions g) p (aiPaddle g) (ball g) (scoreDisplay g) (state g)
     (time g) (keysPressed g) (scoreDelayTimer g).

Definition with_aiPaddle (g : t) (p : Paddle.t) : t :=
  mk (dimensions g) (playerPaddle g) p (ball g) (scoreDisplay g) (state g)
     (time g) (keysPressed g) (scoreDelayTimer g).

Definition with_ball (g : t) (b : Ball.t) : t :=
  mk (dimensions g) (playerPaddle g) (aiPaddle g) b (scoreDisplay g)
     (state g) (time g) (keysPressed g) (scoreDelayTimer g).

Definition with_scoreDisplay (g : t) (d : ScoreDisplay.t) : t :=
  mk (dimensions g) (playerPaddle g) (aiPaddle g) (ball g) d (state g)
     (time g) (keysPressed g) (scoreDelayTimer g).

Definition with_state (g : t) (st : GameState) : t :=
  mk (dimensions g) (playerPaddle g) (aiPaddle g) (ball g) (scoreDisplay g)
     st (time g) (keysPressed g) (scoreDelayTimer g).

Definition with_time (g : t) (now : R) : t :=
  mk (dimensions g) (playerPaddle g) (aiPaddle g) (ball g) (scoreDisplay g)
     (state g) now (keysPressed g) (scoreDelayTimer g).

Definition with_keysPressed (g : t) (ks : list Z) : t :=
  mk (dimensions g) (playerPaddle g) (aiPaddle g) (ball g) (scoreDisplay g)
     (state g) (time g) ks (scoreDelayTimer g).

Definition with_scoreDelayTimer (g : t) (v : R) : t :=
  mk (dimensions g) (playerPaddle g) (aiPaddle g) (ball g) (scoreDisplay g)
     (state g) (time g) (keysPressed g) v.

(** The entities [init] creates for a field of the given dimensions. *)
Definition init (d : Dimensions) : t :=
  {| dimensions := d;
     playerPaddle := Paddle.new PONG_CONFIG.PADDLE_MARGIN (dim_height d);
     aiPaddle :=
       Paddle.new (dim_width d - PONG_CONFIG.PADDLE_MARGIN
                   - PONG_CONFIG.PADDLE_WIDTH) (dim_height d);
     ball := Ball.new (dim_width d) (dim_height d);
     scoreDisplay := ScoreDisplay.new (dim_width d) (dim_height d);
     state := WAITING;
     time := 0;
     keysPressed := [];
     scoreDelayTimer := 0 |}.

Definition has (ks : list Z) (k : Z) : bool := existsb (Z.eqb k) ks.

Definition onKeyUp (g : t) (keyCode : Z) : t :=
  with_keysPressed g
    (filter (fun k => negb (Z.eqb k keyCode)) (keysPressed g)).

Definition startGame (g : t) : t :=
  let g1 := if GameState_eqb (state g) GAME_OVER
            then with_scoreDisplay g (ScoreDisplay.reset (scoreDisplay g))
            else g in
  let g2 := with_state g1 PLAYING in
  let g3 := with_ball g2 (Ball.reset (ball g2)) in
  let g4 := with_playerPaddle g3 (Paddle.reset (playerPaddle g3)) in
  with_aiPaddle g4 (Paddle.reset (aiPaddle g4)).

(** The callback [startGame] defers by 500 ms. *)
Definition launchTimeout (g : t) (s : Random) : t * Random :=
  if GameState_eqb (state g) PLAYING then
    let (r, s1) := Math_random s in
    let (b, s2) := Ball.launch (ball g) (Rgtb r (5 / 10)) s1 in
    (with_ball g b, s2)
  else (g, s).

Definition onKeyDown (g : t) (keyCode : Z) : t :=
  let g1 := if Z.eqb keyCode KEY_CODES.SPACE
               && (GameState_eqb (state g) WAITING
                   || GameState_eqb (state g) GAME_OVER)
            then startGame g else g in
  if Z.eqb keyCode KEY_CODES.UP || Z.eqb keyCode KEY_CODES.DOWN
     || Z.eqb keyCode KEY_CODES.W || Z.eqb keyCode KEY_CODES.S
  then with_keysPressed g1
         (if has (keysPressed g1) keyCode then keysPressed g1
          else keyCode :: keysPressed g1)
  else g1.

(** One pass through the body of the [while] loop of [updateAI]. *)
Definition mirror (h predictedY : R) : R :=
  let p1 := if Rltb predictedY 0 then - predictedY else predictedY in
  if Rgtb p1 h then 2 * h - p1 else p1.

(** The [while] loop of [updateAI]; [None] when the fuel runs out before
    the loop condition turns false. *)
Fixpoint bounces (fuel : nat) (h predictedY : R) : option R :=
  match fuel with
  | O => None
  | S fuel' =>
      if Rltb predictedY 0 || Rgtb predictedY h
      then bounces fuel' h (mirror h predictedY)
      else Some predictedY
  end.

(** [predictedY] as [updateAI] has it when the loop is left. *)
Definition predict (fuel : nat) (g : t) : option R :=
  let timeToReach :=
    (Paddle.x (aiPaddle g) - Ball.x (ball g)) / Ball.vx (ball g) in
  bounces fuel (dim_height (dimensions g))
          (Ball.y (ball g) + Ball.vy (ball g) * timeToReach).

Definition updateAI (fuel : nat) (g : t) (deltaTime : R) (s : Random)
  : option (t * Random) :=
  if Rgtb (Ball.vx (ball g)) 0 then
    match predict fuel g with
    | None => None
    | Some predictedY =>
        let (r, s1) := Math_random s in
        let randomOffset := (r - 5 / 10) * 20 in
        Some (with_aiPaddle g
                (Paddle.moveToward (aiPaddle g)
                   (predictedY + randomOffset) deltaTime
                   PONG_CONFIG.AI_REACTION_SPEED), s1)
    end
  else
    Some (with_aiPaddle g
            (Paddle.moveToward (aiPaddle g)
               (dim_height (dimensions g) / 2) deltaTime
               (PONG_CONFIG.AI_REACTION_SPEED * (5 / 10))), s).

(** The part of [updatePlaying] that follows the two collision tests. *)
Definition handleScoring (g : t) (scored : option Edge) : t :=
  match scored with
  | None => g
  | Some edge =>
      let d := scoreDisplay g in
      let d1 :=
        match edge with
        | left =>
            ScoreDisplay.setAiScore d (ScoreDisplay.getAiScore d + 1)
        | right =>
            ScoreDisplay.setPlayerScore d
              (ScoreDisplay.getPlayerScore d + 1)
        end in
      let g1 := with_scoreDisplay g d1 in
      if Z.geb (ScoreDisplay.getPlayerScore d1) PONG_CONFIG.WINNING_SCORE
         || Z.geb (ScoreDisplay.getAiScore d1) PONG_CONFIG.WINNING_SCORE
      then with_state g1 GAME_OVER
      else
        let g2 := with_state g1 SCORED in
        let g3 := with_scoreDelayTimer g2 0 in
        with_ball g3 (Ball.reset (ball g3))
  end.

Definition updatePlaying (fuel : nat) (g : t) (deltaTime : R) (s : Random)
  : option (t * Random) :=
  match updateAI fuel g deltaTime s with
  | None => None
  | Some (g1, s1) =>
      let (b1, scored) := Ball.update (ball g1) deltaTime in
      let (b2, _) := Ball.checkPaddleCollision b1 (playerPaddle g1) in
      let (b3, _) := Ball.checkPaddleCollision b2 (aiPaddle g1) in
      Some (handleScoring (with_ball g1 b3) scored, s1)
  end.

Definition updateScored (g : t) (deltaTime : R) (s : Random) : t * Random :=
  let g1 := with_scoreDelayTimer g (scoreDelayTimer g + deltaTime) in
  if Rgeb (scoreDelayTimer g1) PONG_CONFIG.SCORE_DELAY then
    let g2 := with_state g1 PLAYING in
    let (r, s1) := Math_random s in
    let (b, s2) := Ball.launch (ball g2) (Rgtb r (5 / 10)) s1 in
    (with_ball g2 b, s2)
  else (g1, s).

(** The frame callback [update], with [now] the value of [getTimeStamp()]
    and without the drawing and the scheduling of the next frame. *)
Definition update (fuel : nat) (g : t) (now : R) (s : Random)
  : option (t * Random) :=
  let deltaTime := now - (if Reqb (time g) 0 then now else time g) in
  let g1 := with_time g now in
  let g2 :=
    if has (keysPressed g1) KEY_CODES.UP || has (keysPressed g1) KEY_CODES.W
    then with_playerPaddle g1 (Paddle.moveUp (playerPaddle g1) deltaTime)
    else g1 in
  let g3 :=
    if has (keysPressed g2) KEY_CODES.DOWN
       || has (keysPressed g2) KEY_CODES.S
    then with_playerPaddle g2 (Paddle.moveDown (playerPaddle g2) deltaTime)
    else g2 in
  let r :=
    if GameState_eqb (state g3) PLAYING then updatePlaying fuel g3 deltaTime s
    else if GameState_eqb (state g3) SCORED
         then Some (updateScored g3 deltaTime s)
         else Some (g3, s) in
  match r with
  | None => None
  | Some (g4, s4) =>
      Some (with_scoreDisplay g4
              (ScoreDisplay.update (scoreDisplay g4) deltaTime), s4)
  end.

End PongGame.

(** ** Quantities of [checkPaddleCollision], named for the statements *)

Definition speedCap (b : Ball.t) : R := Ball.baseSpeed b * (15 / 10).

Definition newSpeed (b : Ball.t) : R :=
  Rmin (Ball.currentSpeed b * (105 / 100)) (speedCap b).

Definition bounceAngle (b : Ball.t) (paddle : Paddle.t) : R :=
  (Ball.y b + Ball.size b / 2 - (Paddle.y paddle + Paddle.height paddle / 2))
  / (Paddle.height paddle / 2) * (PI / 3).

(** The score display [handleScoring] leaves behind. *)
Definition scored_display (d : ScoreDisplay.t) (edge : Edge) : ScoreDisplay.t :=
  match edge with
  | left => ScoreDisplay.setAiScore d (ScoreDisplay.getAiScore d + 1)
  | right => ScoreDisplay.setPlayerScore d (ScoreDisplay.getPlayerScore d + 1)
  end.

(** The ball [updatePlaying] hands to the scoring step. *)
Definition played_ball (g : PongGame.t) (aiPaddle : Paddle.t) (deltaTime : R)
  : Ball.t :=
  fst (Ball.checkPaddleCollision
         (fst (Ball.checkPaddleCollision
                 (fst (Ball.update (PongGame.ball g) deltaTime))
                 (PongGame.playerPaddle g)))
         aiPaddle).

(** ** score_display.ts: what [draw] and [drawGameOver] put on the canvas *)

Module ScoreDraw.

Definition DIGIT_WIDTH : R := 10.
Definition DIGIT_HEIGHT : R := 13.
Definition DIGIT_DEST_WIDTH : R := 11.

(** The calls [draw] makes: [drawDigit(digit, x, y)], where the digit is
    [None] when [parseInt] answers [NaN], and [drawDash(x, y)]. *)
Inductive DrawCmd :=
| DrawDigit (digit : option Z) (x y : R)
| DrawDash (x y : R).

Fixpoint uint_digits (u : Decimal.uint) : list (option Z) :=
  match u with
  | Decimal.Nil => []
  | Decimal.D0 u' => Some 0%Z :: uint_digits u'
  | Decimal.D1 u' => Some 1%Z :: uint_digits u'
  | Decimal.D2 u' => Some 2%Z :: uint_digits u'
  | Decimal.D3 u' => Some 3%Z :: uint_digits u'
  | Decimal.D4 u' => Some 4%Z :: uint_digits u'
  | Decimal.D5 u' => Some 5%Z :: uint_digits u'
  | Decimal.D6 u' => Some 6%Z :: uint_digits u'
  | Decimal.D7 u' => Some 7%Z :: uint_digits u'
  | Decimal.D8 u' => Some 8%Z :: uint_digits u'
  | Decimal.D9 u' => Some 9%Z :: uint_digits u'
  end.

(** [parseInt(c, 10)] for each character [c] of [score.toString()]: the
    decimal digits, after [NaN] for the sign of a negative score. *)
Definition toChars (score : Z) : list (option Z) :=
  match Z.to_int score with
  | Decimal.Pos u => uint_digits u
  | Decimal.Neg u => None :: uint_digits u
  end.

(** [padStart(2, '0')]. *)
Definition padStart2 (chars : list (option Z)) : list (option Z) :=
  repeat (Some 0%Z) (2 - length chars) ++ chars.

(** The loop over the characters of one score: the calls and [currentX]
    after it. *)
Fixpoint drawChars (chars : list (option Z)) (currentX y : R)
  : list DrawCmd * R :=
  match chars with
  | [] => ([], currentX)
  | c :: rest =>
      let (cmds, x') := drawChars rest (currentX + DIGIT_DEST_WIDTH) y in
      (DrawDigit c currentX y :: cmds, x')
  end.

Definition isSide (side : FlashSide) (flashing : option FlashSide) : bool :=
  match side, flashing with
  | player, Some player | ai, Some ai => true
  | _, _ => false
  end.

(** [Math.floor(flashTimer / flashDuration) % 2 === 1] while flashing. *)
Definition hideFlashing (d : ScoreDisplay.t) : bool :=
  ScoreDisplay.isFlashing d &&
  Z.eqb (Z.rem (Int_part (ScoreDisplay.flashTimer d
                          / ScoreDisplay.flashDuration d)) 2) 1.

Definition draw (d : ScoreDisplay.t) : list DrawCmd :=
  let y := 10 in
  let playerStr := padStart2 (toChars (ScoreDisplay.playerScore d)) in
  let aiStr := padStart2 (toChars (ScoreDisplay.aiScore d)) in
  let dashWidth := DIGIT_DEST_WIDTH in
  let spaceWidth := DIGIT_DEST_WIDTH / 2 in
  let totalWidth := 4 * DIGIT_DEST_WIDTH + 2 * spaceWidth + dashWidth in
  let startX := (ScoreDisplay.canvasWidth d - totalWidth) / 2 in
  let (playerCmds, x1) :=
    if negb (hideFlashing d && isSide player (ScoreDisplay.flashingSide d))
    then drawChars playerStr startX y
    else ([], startX + DIGIT_DEST_WIDTH * 2) in
  let x2 := x1 + spaceWidth in
  let dash := DrawDash x2 (y + 5) in
  let x3 := x2 + (dashWidth + spaceWidth) in
  let aiCmds :=
    if negb (hideFlashing d && isSide ai (ScoreDisplay.flashingSide d))
    then fst (drawChars aiStr x3 y)
    else [] in
  playerCmds ++ dash :: aiCmds.

(** The first line [drawGameOver] writes. *)
Definition gameOverMessage (playerWon : bool) : String.string :=
  if playerWon then "YOU WIN!"%string else "CPU WINS"%string.

End ScoreDraw.

(** ** offline.ts: touch input, resizing, the prompt of [draw], events *)

(** The state-dependent message at the end of [draw]. *)
Inductive Prompt :=
| NoPrompt
| StartMessage
| GameOverMessage (playerWon : bool).

Module Controller.

Definition prompt (g : PongGame.t) : Prompt :=
  if GameState_eqb (PongGame.state g) WAITING then StartMessage
  else if GameState_eqb (PongGame.state g) GAME_OVER then
    GameOverMessage
      (Z.geb (ScoreDisplay.getPlayerScore (PongGame.scoreDisplay g))
             PONG_CONFIG.WINNING_SCORE)
  else NoPrompt.

(** [adjustDimensions] once the canvas exists.  The field [dimensions] is
    initialised with the object [DEFAULT_DIMENSIONS] itself and never
    reassigned, so the [DEFAULT_DIMENSIONS.width] this function reads is the
    width its previous call stored.  [offsetWidth] is that of the outer
    container and [padding] its left padding in pixels. *)
Definition adjustDimensions (g : PongGame.t) (offsetWidth padding : R)
  : PongGame.t :=
  let width := Rmin (dim_width (PongGame.dimensions g))
                    (offsetWidth - padding * 2) in
  let d := {| dim_width := width;
              dim_height := dim_height (PongGame.dimensions g) |} in
  PongGame.mk d
    (PongGame.playerPaddle g)
    (Paddle.with_x (PongGame.aiPaddle g)
       (width - PONG_CONFIG.PADDLE_MARGIN - PONG_CONFIG.PADDLE_WIDTH))
    (Ball.new width (dim_height d))
    (ScoreDisplay.new width (dim_height d))
    (PongGame.state g) (PongGame.time g) (PongGame.keysPressed g)
    (PongGame.scoreDelayTimer g).

(** [init]: the first [adjustDimensions], before there is a canvas, only
    stores the width; the entities are then created for it. *)
Definition boot (offsetWidth padding : R) : PongGame.t :=
  PongGame.init
    {| dim_width := Rmin (dim_width DEFAULT_DIMENSIONS)
                         (offsetWidth - padding * 2);
       dim_height := dim_height DEFAULT_DIMENSIONS |}.

(** The controller with the [touchY] of the touch handlers. *)
Record page := mkPage { game : PongGame.t; touchY : option R }.

(** [clientY] is [e.touches[0]?.clientY], absent without a touch point. *)
Definition onTouchStart (pg : page) (clientY : option R) : page :=
  let g := game pg in
  let g1 := if GameState_eqb (PongGame.state g) WAITING
               || GameState_eqb (PongGame.state g) GAME_OVER
            then PongGame.startGame g else g in
  mkPage g1 clientY.

(** [canvasTop] is [canvas.getBoundingClientRect().top]. *)
Definition onTouchMove (pg : page) (clientY : option R) (canvasTop : R)
  : page :=
  match touchY pg, clientY with
  | Some _, Some currentY =>
      let g := game pg in
      let relativeY := currentY - canvasTop in
      let paddle := PongGame.playerPaddle g in
      mkPage
        (PongGame.with_playerPaddle g
           (Paddle.with_y paddle
              (Rmax 0
                 (Rmin (dim_height (PongGame.dimensions g)
                        - Paddle.height paddle)
                       (relativeY - Paddle.height paddle / 2)))))
        (touchY pg)
  | _, _ => pg
  end.

Definition onTouchEnd (pg : page) : page := mkPage (game pg) None.

(** What the browser can deliver to the controller. *)
Inductive event :=
| Frame (now : R)
| KeyDown (keyCode : Z)
| KeyUp (keyCode : Z)
| TouchStart (clientY : option R)
| TouchMove (clientY : option R) (canvasTop : R)
| TouchEnd
| LaunchTimeout
| Resize (offsetWidth padding : R).

Definition step (fuel : nat) (pg : page) (s : Random) (e : event)
  : option (page * Random) :=
  match e with
  | Frame now =>
      match PongGame.update fuel (game pg) now s with
      | Some (g', s') => Some (mkPage g' (touchY pg), s')
      | None => None
      end
  | KeyDown k => Some (mkPage (PongGame.onKeyDown (game pg) k) (touchY pg), s)
  | KeyUp k => Some (mkPage (PongGame.onKeyUp (game pg) k) (touchY pg), s)
  | TouchStart clientY => Some (onTouchStart pg clientY, s)
  | TouchMove clientY canvasTop => Some (onTouchMove pg clientY canvasTop, s)
  | TouchEnd => Some (onTouchEnd pg, s)
  | LaunchTimeout =>
      let (g', s') := PongGame.launchTimeout (game pg) s in
      Some (mkPage g' (touchY pg), s')
  | Resize offsetWidth padding =>
      Some (mkPage (adjustDimensions (game pg) offsetWidth padding)
                   (touchY pg), s)
  end.

Fixpoint run (fuel : nat) (pg : page) (s : Random) (events : list event)
  : option (page * Random) :=
  match events with
  | [] => Some (pg, s)
  | e :: rest =>
      match step fuel pg s e with
      | Some (pg', s') => run fuel pg' s' rest
      | None => None
      end
  end.

(** The time stamps of the frames do not go back. *)
Fixpoint timely (time : R) (events : list event) : Prop :=
  match events with
  | [] => True
  | Frame now :: rest => time <= now /\ timely now rest
  | _ :: rest => timely time rest
  end.

Definition isResize (e : event) : bool :=
  match e with Resize _ _ => true | _ => false end.


(** Every draw of the stream lies in [0, 1), as [Math.random] promises. *)
Definition unit_draws (s : Random) : Prop := forall n, 0 <= s n < 1.

End Controller.

(** ** Predicates and runs for the properties of the flash animation *)

(** The flash state as [startFlash], [update] and [reset] leave it: while a
    score flashes its side is known and the timer has not reached six flash
    durations; otherwise there is no side and the timer is zero. *)
Definition flash_inv (d : ScoreDisplay.t) : Prop :=
  0 < ScoreDisplay.flashDuration d /\
  (ScoreDisplay.isFlashing d = true ->
   ScoreDisplay.flashingSide d <> None /\
   0 <= ScoreDisplay.flashTimer d < ScoreDisplay.flashDuration d * 6) /\
  (ScoreDisplay.isFlashing d = false ->
   ScoreDisplay.flashingSide d = None /\ ScoreDisplay.flashTimer d = 0).

Definition forward (o : ScoreDisplay.op) : Prop :=
  match o with
  | ScoreDisplay.Update deltaTime => 0 <= deltaTime
  | _ => True
  end.





(** ** Invariants of the running game *)

(** A paddle as the constructor builds it and the moves leave it. *)
Definition paddle_std (p : Paddle.t) : Prop :=
  Paddle.width p = PONG_CONFIG.PADDLE_WIDTH /\
  Paddle.height p = PONG_CONFIG.PADDLE_HEIGHT /\
  Paddle.speed p = PONG_CONFIG.PADDLE_SPEED /\
  Paddle.canvasHeight p = dim_height DEFAULT_DIMENSIONS /\
  Paddle.in_range p.

(** A ball as the game has it: the constructor's size and base speed,
    between the walls, and either at rest or moving sideways at a speed
    between the base speed and one and a half times the base speed. *)
Definition ball_std (b : Ball.t) : Prop :=
  Ball.size b = PONG_CONFIG.BALL_SIZE /\
  Ball.baseSpeed b = PONG_CONFIG.BALL_SPEED /\
  Ball.canvasHeight b = dim_height DEFAULT_DIMENSIONS /\
  0 <= Ball.y b <= Ball.canvasHeight b - Ball.size b /\
  (Ball.isMoving b = false \/
   (Ball.vx b <> 0 /\
    Ball.baseSpeed b <= Ball.currentSpeed b <= Ball.baseSpeed b * (15 / 10))).

Definition steady (g : PongGame.t) : Prop :=
  dim_height (PongGame.dimensions g) = dim_height DEFAULT_DIMENSIONS /\
  paddle_std (PongGame.playerPaddle g) /\
  paddle_std (PongGame.aiPaddle g) /\
  ball_std (PongGame.ball g) /\
  Ball.canvasWidth (PongGame.ball g) = dim_width (PongGame.dimensions g).

(** The scores and the state agree: nobody is past 11, at most one side has
    11, and the game is over exactly when one side has. *)
Definition tally (g : PongGame.t) : Prop :=
  let p := ScoreDisplay.getPlayerScore (PongGame.scoreDisplay g) in
  let a := ScoreDisplay.getAiScore (PongGame.scoreDisplay g) in
  (0 <= p <= 11)%Z /\ (0 <= a <= 11)%Z /\ ~ (p = 11 /\ a = 11)%Z /\
  (PongGame.state g = GAME_OVER <-> (p = 11 \/ a = 11)%Z).

(** The page [init] leaves behind. *)
Definition bootPage (offsetWidth padding : R) : Controller.page :=
  Controller.mkPage (Controller.boot offsetWidth padding) None.

(** The stored time stamp after an event. *)
Definition time_after (time : R) (e : Controller.event) : R :=
  match e with Controller.Frame now => now | _ => time end.

(** The frame time [update] computes and the game after its input stage,
    named for the statements. *)
Definition frameTime (g : PongGame.t) (now : R) : R :=
  now - (if Reqb (PongGame.time g) 0 then now else PongGame.time g).

Definition afterInput (g : PongGame.t) (now : R) : PongGame.t :=
  let deltaTime := frameTime g now in
  let g1 := PongGame.with_time g now in
  let g2 :=
    if PongGame.has (PongGame.keysPressed g1) KEY_CODES.UP
       || PongGame.has (PongGame.keysPressed g1) KEY_CODES.W
    then PongGame.with_playerPaddle g1
           (Paddle.moveUp (PongGame.playerPaddle g1) deltaTime)
    else g1 in
  if PongGame.has (PongGame.keysPressed g2) KEY_CODES.DOWN
     || PongGame.has (PongGame.keysPressed g2) KEY_CODES.S
  then PongGame.with_playerPaddle g2
         (Paddle.moveDown (PongGame.playerPaddle g2) deltaTime)
  else g2.

(** Events that do not start a game: everything but the space key and the
    start of a touch. *)
Definition noStart (e : Controller.event) : bool :=
  match e with
  | Controller.KeyDown keyCode => negb (Z.eqb keyCode KEY_CODES.SPACE)
  | Controller.TouchStart _ => false
  | _ => true
  end.



(** A finished game whose scores a resize has wiped. *)
Definition wiped (g : PongGame.t) : Prop :=
  PongGame.state g = GAME_OVER /\
  ScoreDisplay.getPlayerScore (PongGame.scoreDisplay g) = 0%Z /\
  ScoreDisplay.getAiScore (PongGame.scoreDisplay g) = 0%Z.

(** * Properties *)

(** ** Booleans and the order of the reals *)

Lemma Rltb_true (a b : R) : Rltb a b = true <-> a < b.
Proof. unfold Rltb; destruct (Rlt_dec a b); split; (congruence || tauto). Qed.

Lemma Rltb_false (a b : R) : Rltb a b = false <-> b <= a.
Proof.
  unfold Rltb; destruct (Rlt_dec a b); split; intros; try congruence; lra.
Qed.

Lemma Rleb_true (a b : R) : Rleb a b = true <-> a <= b.
Proof. unfold Rleb; destruct (Rle_dec a b); split; (congruence || tauto). Qed.

Lemma Rleb_false (a b : R) : Rleb a b = false <-> b < a.
Proof.
  unfold Rleb; destruct (Rle_dec a b); split; intros; try congruence; lra.
Qed.

Lemma Reqb_true (a b : R) : Reqb a b = true <-> a = b.
Proof. unfold Reqb; destruct (Req_dec_T a b); split; (congruence || tauto). Qed.

Lemma Reqb_false (a b : R) : Reqb a b = false <-> a <> b.
Proof. unfold Reqb; destruct (Req_dec_T a b); split; (congruence || tauto). Qed.

(** Case analysis on every comparison in sight. *)
Ltac cmp :=
  unfold Rgtb, Rgeb, Rneqb, Rltb, Rleb, Reqb in *;
  repeat match goal with
         | |- context [Rlt_dec ?a ?b] => destruct (Rlt_dec a b)
         | |- context [Rle_dec ?a ?b] => destruct (Rle_dec a b)
         | |- context [Req_dec_T ?a ?b] => destruct (Req_dec_T a b)
         | H : context [Rlt_dec ?a ?b] |- _ => destruct (Rlt_dec a b)
         | H : context [Rle_dec ?a ?b] |- _ => destruct (Rle_dec a b)
         | H : context [Req_dec_T ?a ?b] |- _ => destruct (Req_dec_T a b)
         end.

Lemma frame_scale_nonneg (deltaTime : R) :
  0 <= deltaTime -> 0 <= deltaTime / NOMINAL_FRAME_MS.
Proof.
  intros H. unfold NOMINAL_FRAME_MS.
  apply Rmult_le_pos; [exact H | ].
  left. apply Rinv_0_lt_compat. lra.
Qed.

(** ** Paddle *)

Section PaddleMoves.

Variable p : Paddle.t.
Variable deltaTime : R.
Hypothesis dt_nonneg : 0 <= deltaTime.
Hypothesis speed_nonneg : 0 <= Paddle.speed p.
Hypothesis inside : Paddle.in_range p.

Lemma movement_nonneg :
  0 <= Paddle.speed p * (deltaTime / NOMINAL_FRAME_MS).
Proof.
  apply Rmult_le_pos; [exact speed_nonneg | ].
  now apply frame_scale_nonneg.
Qed.

Lemma moveUp_in_range : Paddle.in_range (Paddle.moveUp p deltaTime).
Proof.
  pose proof movement_nonneg as Hm.
  destruct inside as [Hlo Hhi].
  unfold Paddle.in_range, Paddle.moveUp; simpl.
  split.
  - apply Rmax_l.
  - apply Rmax_lub; lra.
Qed.

Lemma moveDown_in_range : Paddle.in_range (Paddle.moveDown p deltaTime).
Proof.
  pose proof movement_nonneg as Hm.
  destruct inside as [Hlo Hhi].
  unfold Paddle.in_range, Paddle.moveDown; simpl.
  split.
  - apply Rmin_glb; lra.
  - apply Rmin_l.
Qed.

Lemma moveUp_at_top :
  Paddle.y p = 0 -> Paddle.moveUp p deltaTime = p.
Proof.
  intros Hy. pose proof movement_nonneg as Hm.
  unfold Paddle.moveUp, Paddle.with_y; simpl.
  rewrite Rmax_left by lra.
  destruct p; simpl in *; subst; reflexivity.
Qed.

Lemma moveDown_at_bottom :
  Paddle.y p = Paddle.canvasHeight p - Paddle.height p ->
  Paddle.moveDown p deltaTime = p.
Proof.
  intros Hy. pose proof movement_nonneg as Hm.
  unfold Paddle.moveDown, Paddle.with_y; simpl.
  rewrite Rmin_left by lra.
  destruct p; simpl in *; subst; reflexivity.
Qed.

End PaddleMoves.

Lemma moveToward_delegates (p : Paddle.t) (targetY deltaTime reactionSpeed : R) :
  Paddle.moveToward p targetY deltaTime reactionSpeed = p \/
  Paddle.moveToward p targetY deltaTime reactionSpeed
    = Paddle.moveUp p (deltaTime * reactionSpeed) \/
  Paddle.moveToward p targetY deltaTime reactionSpeed
    = Paddle.moveDown p (deltaTime * reactionSpeed).
Proof.
  unfold Paddle.moveToward.
  destruct (Rgtb _ _); [ | now left ].
  destruct (Rgtb _ _); [ now right; right | now right; left ].
Qed.

Lemma moveToward_in_range (p : Paddle.t) (targetY deltaTime reactionSpeed : R) :
  0 <= deltaTime -> 0 <= reactionSpeed -> 0 <= Paddle.speed p ->
  Paddle.in_range p ->
  Paddle.in_range (Paddle.moveToward p targetY deltaTime reactionSpeed).
Proof.
  intros Hdt Hrs Hsp Hin.
  assert (0 <= deltaTime * reactionSpeed) by now apply Rmult_le_pos.
  destruct (moveToward_delegates p targetY deltaTime reactionSpeed)
    as [-> | [-> | ->]].
  - exact Hin.
  - now apply moveUp_in_range.
  - now apply moveDown_in_range.
Qed.

(** C2: for a frame time that is not negative, [moveUp] and [moveDown] keep
    a paddle's [y] within [0, canvasHeight - height]; at the upper boundary
    [moveUp] changes nothing and at the lower boundary [moveDown] changes
    nothing; [moveToward] does nothing, or what [moveUp] or [moveDown] do on
    the scaled time, and so keeps the range as well.  The paddle's speed
    (the constant 5 of the constructor) and the reaction speed (0.85 or
    0.425 at the call sites) are not negative. *)
Theorem C2_paddle_stays_in_range :
  forall (p : Paddle.t) (deltaTime : R),
    0 <= deltaTime ->
    0 <= Paddle.speed p ->
    Paddle.in_range p ->
    Paddle.in_range (Paddle.moveUp p deltaTime) /\
    Paddle.in_range (Paddle.moveDown p deltaTime) /\
    (Paddle.y p = 0 -> Paddle.y (Paddle.moveUp p deltaTime) = 0) /\
    (Paddle.y p = Paddle.canvasHeight p - Paddle.height p ->
     Paddle.y (Paddle.moveDown p deltaTime)
       = Paddle.canvasHeight p - Paddle.height p) /\
    (forall targetY reactionSpeed,
        0 <= reactionSpeed ->
        let p' := Paddle.moveToward p targetY deltaTime reactionSpeed in
        (p' = p \/ p' = Paddle.moveUp p (deltaTime * reactionSpeed)
         \/ p' = Paddle.moveDown p (deltaTime * reactionSpeed)) /\
        Paddle.in_range p').
Proof.
  intros p deltaTime Hdt Hsp Hin.
  split; [ now apply moveUp_in_range | ].
  split; [ now apply moveDown_in_range | ].
  split.
  { intros Hy. rewrite (moveUp_at_top p deltaTime Hdt Hsp Hin Hy). exact Hy. }
  split.
  { intros Hy. rewrite (moveDown_at_bottom p deltaTime Hdt Hsp Hin Hy). exact Hy. }
  intros targetY reactionSpeed Hrs p'. split.
  - apply moveToward_delegates.
  - now apply moveToward_in_range.
Qed.

Lemma C2_paddle_stays_in_range_witness :
  let p := Paddle.new 20 150 in
  Paddle.in_range (Paddle.moveUp p 1000) /\
  Paddle.in_range (Paddle.moveDown p 1000).
Proof.
  intros p.
  assert (Hin : Paddle.in_range p).
  { unfold Paddle.in_range, p, Paddle.new, PONG_CONFIG.PADDLE_HEIGHT; simpl.
    lra. }
  assert (Hsp : 0 <= Paddle.speed p).
  { unfold p, Paddle.new, PONG_CONFIG.PADDLE_SPEED; simpl. lra. }
  assert (Hdt : 0 <= 1000) by lra.
  destruct (C2_paddle_stays_in_range p 1000 Hdt Hsp Hin) as (Hu & Hd & _).
  exact (conj Hu Hd).
Defined.

(** ** Ball: integration, walls and edges *)

Lemma topWall_x (b : Ball.t) : Ball.x (Ball.topWall b) = Ball.x b.
Proof. unfold Ball.topWall; destruct (Rleb _ _); reflexivity. Qed.

Lemma bottomWall_x (b : Ball.t) : Ball.x (Ball.bottomWall b) = Ball.x b.
Proof. unfold Ball.bottomWall; destruct (Rgeb _ _); reflexivity. Qed.

Lemma topWall_static (b : Ball.t) :
  Ball.size (Ball.topWall b) = Ball.size b /\
  Ball.canvasWidth (Ball.topWall b) = Ball.canvasWidth b /\
  Ball.canvasHeight (Ball.topWall b) = Ball.canvasHeight b.
Proof. unfold Ball.topWall; destruct (Rleb _ _); auto. Qed.

Lemma bottomWall_static (b : Ball.t) :
  Ball.size (Ball.bottomWall b) = Ball.size b /\
  Ball.canvasWidth (Ball.bottomWall b) = Ball.canvasWidth b /\
  Ball.canvasHeight (Ball.bottomWall b) = Ball.canvasHeight b.
Proof. unfold Ball.bottomWall; destruct (Rgeb _ _); auto. Qed.

Lemma update_x (b : Ball.t) (deltaTime : R) :
  Ball.x (fst (Ball.update b deltaTime))
    = Ball.x b + Ball.vx b * (deltaTime / NOMINAL_FRAME_MS).
Proof.
  unfold Ball.update; simpl. now rewrite bottomWall_x, topWall_x.
Qed.

Lemma update_static (b : Ball.t) (deltaTime : R) :
  Ball.size (fst (Ball.update b deltaTime)) = Ball.size b /\
  Ball.canvasWidth (fst (Ball.update b deltaTime)) = Ball.canvasWidth b /\
  Ball.canvasHeight (fst (Ball.update b deltaTime)) = Ball.canvasHeight b.
Proof.
  unfold Ball.update; simpl.
  destruct (bottomWall_static (Ball.topWall (Ball.integrate b deltaTime)))
    as (-> & -> & ->).
  destruct (topWall_static (Ball.integrate b deltaTime)) as (-> & -> & ->).
  auto.
Qed.

Lemma edgeCheck_left (b : Ball.t) :
  Ball.edgeCheck b = Some left <-> Ball.x b + Ball.size b < 0.
Proof.
  unfold Ball.edgeCheck. split.
  - destruct (Rltb (Ball.x b + Ball.size b) 0) eqn:E.
    + intros _. now apply Rltb_true.
    + destruct (Rgtb _ _); discriminate.
  - intros H. apply Rltb_true in H. now rewrite H.
Qed.

Lemma edgeCheck_right (b : Ball.t) :
  0 <= Ball.size b -> 0 <= Ball.canvasWidth b ->
  (Ball.edgeCheck b = Some right <-> Ball.x b > Ball.canvasWidth b).
Proof.
  intros Hs Hw. unfold Ball.edgeCheck, Rgtb. split.
  - destruct (Rltb (Ball.x b + Ball.size b) 0); [ discriminate | ].
    destruct (Rltb (Ball.canvasWidth b) (Ball.x b)) eqn:E; [ | discriminate ].
    intros _. now apply Rltb_true in E.
  - intros H.
    assert (E1 : Rltb (Ball.x b + Ball.size b) 0 = false)
      by (apply Rltb_false; lra).
    assert (E2 : Rltb (Ball.canvasWidth b) (Ball.x b) = true)
      by (apply Rltb_true; lra).
    now rewrite E1, E2.
Qed.

Lemma edgeCheck_none (b : Ball.t) :
  Ball.edgeCheck b = None <->
  ~ Ball.x b + Ball.size b < 0 /\ ~ Ball.x b > Ball.canvasWidth b.
Proof.
  unfold Ball.edgeCheck, Rgtb. split.
  - destruct (Rltb (Ball.x b + Ball.size b) 0) eqn:E1; [ discriminate | ].
    destruct (Rltb (Ball.canvasWidth b) (Ball.x b)) eqn:E2; [ discriminate | ].
    apply Rltb_false in E1, E2. intros _. split; lra.
  - intros [H1 H2].
    assert (E1 : Rltb (Ball.x b + Ball.size b) 0 = false)
      by (apply Rltb_false; lra).
    assert (E2 : Rltb (Ball.canvasWidth b) (Ball.x b) = false)
      by (apply Rltb_false; lra).
    now rewrite E1, E2.
Qed.

(** C3: [update] answers from the position it has just computed: ['left']
    exactly when [x + size < 0], ['right'] exactly when [x > canvasWidth],
    [null] in the remaining case.  The ball it leaves behind has gone
    through the top and the bottom wall test whatever the answer is, so a
    step that breaches a wall and an edge at once has the wall resolved
    (position clamped, [vy] negated) under the edge signal.  A controller
    that stores the updated ball has the same score display as before.
    The ball's size and the field width are not negative. *)
Theorem C3_update_edge_signal :
  forall (b : Ball.t) (deltaTime : R),
    0 <= Ball.size b ->
    0 <= Ball.canvasWidth b ->
    let b' := fst (Ball.update b deltaTime) in
    let signal := snd (Ball.update b deltaTime) in
    let moved := Ball.integrate b deltaTime in
    Ball.x b' = Ball.x b + Ball.vx b * (deltaTime / NOMINAL_FRAME_MS) /\
    (signal = Some left <-> Ball.x b' + Ball.size b' < 0) /\
    (signal = Some right <-> Ball.x b' > Ball.canvasWidth b') /\
    (signal = None <->
     ~ Ball.x b' + Ball.size b' < 0 /\ ~ Ball.x b' > Ball.canvasWidth b') /\
    b' = Ball.bottomWall (Ball.topWall moved) /\
    (Ball.y moved <= 0 -> Ball.size b < Ball.canvasHeight b ->
     Ball.y b' = 0 /\ Ball.vy b' = - Ball.vy b) /\
    (0 < Ball.y moved -> Ball.y moved + Ball.size b >= Ball.canvasHeight b ->
     Ball.y b' = Ball.canvasHeight b - Ball.size b /\
     Ball.vy b' = - Ball.vy b) /\
    (forall g : PongGame.t,
        PongGame.scoreDisplay (PongGame.with_ball g b')
          = PongGame.scoreDisplay g).
Proof.
  intros b deltaTime Hs Hw b' signal moved.
  destruct (update_static b deltaTime) as (Hsize & Hwidth & Hheight).
  fold b' in Hsize, Hwidth, Hheight.
  assert (Hsig : signal = Ball.edgeCheck b') by reflexivity.
  split; [ apply update_x | ].
  split; [ rewrite Hsig; apply edgeCheck_left | ].
  split; [ rewrite Hsig; apply edgeCheck_right; congruence | ].
  split; [ rewrite Hsig; apply edgeCheck_none | ].
  split; [ reflexivity | ].
  split; [ | split ].
  - intros Hy Hroom.
    unfold b', Ball.update; simpl. fold moved.
    unfold Ball.topWall.
    assert (E : Rleb (Ball.y moved) 0 = true) by now apply Rleb_true.
    rewrite E. unfold Ball.bottomWall, Rgeb; simpl.
    assert (E' : Rleb (Ball.canvasHeight b) (0 + Ball.size b) = false)
      by (apply Rleb_false; lra).
    rewrite E'. simpl. auto.
  - intros Hy Hlow.
    unfold b', Ball.update; simpl. fold moved.
    unfold Ball.topWall.
    assert (E : Rleb (Ball.y moved) 0 = false) by now apply Rleb_false.
    rewrite E. unfold Ball.bottomWall, Rgeb.
    assert (E' : Rleb (Ball.canvasHeight moved)
                      (Ball.y moved + Ball.size moved) = true)
      by (apply Rleb_true;
          change (Ball.canvasHeight b <= Ball.y moved + Ball.size b); lra).
    rewrite E'. simpl. auto.
  - reflexivity.
Qed.

Lemma C3_update_edge_signal_witness :
  let b := Ball.with_vel (Ball.with_pos (Ball.new 600 150) 1 1) (-1667) (-1667) in
  snd (Ball.update b 100) = Some left /\
  Ball.y (fst (Ball.update b 100)) = 0 /\
  Ball.vy (fst (Ball.update b 100)) = 1667.
Proof.
  intros b.
  assert (Hs : 0 <= Ball.size b)
    by (simpl; unfold PONG_CONFIG.BALL_SIZE; lra).
  assert (Hw : 0 <= Ball.canvasWidth b) by (simpl; lra).
  destruct (C3_update_edge_signal b 100 Hs Hw)
    as (Hx & Hl & _ & _ & _ & Htop & _).
  split.
  - apply Hl. rewrite Hx.
    destruct (update_static b 100) as (-> & _).
    simpl. unfold PONG_CONFIG.BALL_SIZE, NOMINAL_FRAME_MS. lra.
  - assert (Hy : Ball.y (Ball.integrate b 100) <= 0)
      by (simpl; unfold NOMINAL_FRAME_MS; lra).
    assert (Hroom : Ball.size b < Ball.canvasHeight b)
      by (simpl; unfold PONG_CONFIG.BALL_SIZE; lra).
    destruct (Htop Hy Hroom) as [H0 Hv].
    split; [ exact H0 | ]. rewrite Hv. simpl. lra.
Defined.

(** ** Ball: the paddle collision *)

(** C10: without an overlap [checkPaddleCollision] answers [false] and hands
    the ball back as it was, every field included. *)
Theorem C10_no_overlap_no_change :
  forall (b : Ball.t) (paddle : Paddle.t),
    Ball.overlaps b (Paddle.getBounds paddle) = false ->
    Ball.checkPaddleCollision b paddle = (b, false).
Proof.
  intros b paddle H. unfold Ball.checkPaddleCollision. now rewrite H.
Qed.

Lemma C10_no_overlap_no_change_witness :
  Ball.checkPaddleCollision (Ball.new 600 150) (Paddle.new 20 150)
    = (Ball.new 600 150, false).
Proof.
  apply C10_no_overlap_no_change.
  unfold Ball.overlaps; simpl.
  unfold PONG_CONFIG.BALL_SIZE, PONG_CONFIG.PADDLE_WIDTH.
  assert (E : Rltb (600 / 2 - 8 / 2) (20 + 10) = false)
    by (apply Rltb_false; lra).
  now rewrite E.
Defined.

Lemma speed_at_rest (b : Ball.t) :
  Ball.vx b = 0 -> Ball.vy b = 0 -> Ball.currentSpeed b = 0.
Proof.
  intros Hx Hy. unfold Ball.currentSpeed. rewrite Hx, Hy.
  replace (0 * 0 + 0 * 0) with 0 by ring. apply sqrt_0.
Qed.

Lemma rest_collision (b : Ball.t) (paddle : Paddle.t) :
  Ball.vx b = 0 -> Ball.vy b = 0 ->
  0 <= Ball.baseSpeed b ->
  Ball.overlaps b (Paddle.getBounds paddle) = true ->
  Ball.checkPaddleCollision b paddle
    = (Ball.with_x b (Paddle.x paddle + Paddle.width paddle), true).
Proof.
  intros Hvx Hvy Hbase Hov.
  unfold Ball.checkPaddleCollision. rewrite Hov.
  rewrite (speed_at_rest b Hvx Hvy), Hvx.
  assert (E : Rgtb 0 0 = false) by (apply Rltb_false; lra).
  rewrite E.
  assert (E' : Reqb 1 (-1) = false) by (apply Reqb_false; lra).
  rewrite E'.
  assert (Hmin : Rmin (0 * (105 / 100)) (Ball.baseSpeed b * (15 / 10)) = 0).
  { rewrite Rmin_left; lra. }
  rewrite Hmin. cbv zeta.
  simpl b_y; simpl b_x; simpl b_height; simpl b_width.
  set (a := (Ball.y b + Ball.size b / 2
             - (Paddle.y paddle + Paddle.height paddle / 2))
            / (Paddle.height paddle / 2) * (PI / 3)).
  replace (cos a * 0 * 1) with 0 by ring.
  replace (sin a * 0) with 0 by ring.
  f_equal. unfold Ball.with_x, Ball.with_pos, Ball.with_vel; simpl.
  destruct b; simpl in *; subst; reflexivity.
Qed.

(** C9: a ball at rest that overlaps a paddle is reported as a collision
    and moved to the paddle's right edge, and it is still at rest
    afterwards: the new speed is the minimum of 0 and 1.5 times the base
    speed, which is 0 for a base speed that is not negative. *)
Theorem C9_collision_at_rest :
  forall (b : Ball.t) (paddle : Paddle.t),
    Ball.vx b = 0 -> Ball.vy b = 0 ->
    0 <= Ball.baseSpeed b ->
    Ball.overlaps b (Paddle.getBounds paddle) = true ->
    let b' := fst (Ball.checkPaddleCollision b paddle) in
    snd (Ball.checkPaddleCollision b paddle) = true /\
    Ball.x b' = Paddle.x paddle + Paddle.width paddle /\
    Ball.y b' = Ball.y b /\
    Ball.vx b' = 0 /\ Ball.vy b' = 0 /\
    Ball.isMoving b' = false.
Proof.
  intros b paddle Hvx Hvy Hbase Hov b'.
  unfold b'. rewrite (rest_collision b paddle Hvx Hvy Hbase Hov).
  unfold Ball.isMoving; simpl. rewrite Hvx, Hvy.
  assert (E0 : Rneqb 0 0 = false).
  { unfold Rneqb. assert (Reqb 0 0 = true) as -> by now apply Reqb_true.
    reflexivity. }
  rewrite E0. repeat split; reflexivity.
Qed.

Lemma C9_collision_at_rest_witness :
  let b := Ball.new 60 150 in
  let paddle := Paddle.new 20 150 in
  snd (Ball.checkPaddleCollision b paddle) = true /\
  Ball.x (fst (Ball.checkPaddleCollision b paddle)) = 30 /\
  Ball.vx (fst (Ball.checkPaddleCollision b paddle)) = 0.
Proof.
  intros b paddle.
  assert (Hbase : 0 <= Ball.baseSpeed b)
    by (simpl; unfold PONG_CONFIG.BALL_SPEED; lra).
  assert (Hov : Ball.overlaps b (Paddle.getBounds paddle) = true).
  { unfold Ball.overlaps, Rgtb; simpl.
    unfold PONG_CONFIG.BALL_SIZE, PONG_CONFIG.PADDLE_WIDTH,
      PONG_CONFIG.PADDLE_HEIGHT.
    repeat (apply andb_true_intro; split); apply Rltb_true; lra. }
  destruct (C9_collision_at_rest b paddle eq_refl eq_refl Hbase Hov)
    as (Hr & Hx & _ & Hv & _).
  split; [ exact Hr | ]. split; [ | exact Hv ].
  rewrite Hx. simpl. unfold PONG_CONFIG.PADDLE_WIDTH. lra.
Defined.

(** ** Ball: launch and speed *)

Lemma unit_circle (a : R) : cos a * cos a + sin a * sin a = 1.
Proof.
  pose proof (sin2_cos2 a) as H. unfold Rsqr in H. lra.
Qed.

(** The length of a vector given by angle, length and orientation. *)
Lemma polar_length (a n d : R) :
  0 <= n -> d * d = 1 ->
  sqrt (cos a * n * d * (cos a * n * d) + sin a * n * (sin a * n)) = n.
Proof.
  intros Hn Hd.
  replace (cos a * n * d * (cos a * n * d) + sin a * n * (sin a * n))
    with (n * n * (cos a * cos a * (d * d) + sin a * sin a)) by ring.
  rewrite Hd, Rmult_1_r, unit_circle, Rmult_1_r.
  now apply sqrt_square.
Qed.

(** Within 45 degrees of the horizontal the sine is no larger than the
    cosine. *)
Lemma octant (a : R) :
  - (PI / 4) <= a <= PI / 4 -> 0 < cos a /\ Rabs (sin a) <= cos a.
Proof.
  intros [Hlo Hhi]. pose proof PI_RGT_0 as Hpi.
  assert (Hc : 0 < cos a) by (apply cos_gt_0; lra).
  assert (H2 : 0 <= cos (2 * a)) by (apply cos_ge_0; lra).
  rewrite cos_2a in H2.
  split; [ exact Hc | ].
  apply Rabs_le. split; nra.
Qed.

Lemma launch_angle (draw : R) :
  0 <= draw < 1 ->
  - (PI / 4) <= (draw - 5 / 10) * PI / 2 < PI / 4.
Proof.
  intros [H0 H1]. pose proof PI_RGT_0 as Hpi. split; nra.
Qed.

Lemma currentSpeed_nonneg (b : Ball.t) : 0 <= Ball.currentSpeed b.
Proof. apply sqrt_pos. Qed.





(** ** Ball: speed and direction after a collision *)

Lemma overlaps_true (b : Ball.t) (bounds : Bounds) :
  Ball.overlaps b bounds = true <->
  Ball.x b < b_x bounds + b_width bounds /\
  Ball.x b + Ball.size b > b_x bounds /\
  Ball.y b < b_y bounds + b_height bounds /\
  Ball.y b + Ball.size b > b_y bounds.
Proof.
  unfold Ball.overlaps, Rgtb.
  rewrite !andb_true_iff, !Rltb_true. intuition lra.
Qed.

Lemma collision_fields (b : Ball.t) (paddle : Paddle.t) :
  Ball.overlaps b (Paddle.getBounds paddle) = true ->
  let b' := fst (Ball.checkPaddleCollision b paddle) in
  let direction := if Rgtb (Ball.vx b) 0 then -1 else 1 in
  snd (Ball.checkPaddleCollision b paddle) = true /\
  Ball.vx b' = cos (bounceAngle b paddle) * newSpeed b * direction /\
  Ball.vy b' = sin (bounceAngle b paddle) * newSpeed b /\
  Ball.x b' = (if Rgtb (Ball.vx b) 0
               then Paddle.x paddle - Ball.size b
               else Paddle.x paddle + Paddle.width paddle) /\
  Ball.y b' = Ball.y b /\
  Ball.size b' = Ball.size b /\
  Ball.baseSpeed b' = Ball.baseSpeed b.
Proof.
  intros Hov. unfold Ball.checkPaddleCollision. rewrite Hov.
  destruct (Rgtb (Ball.vx b) 0).
  - assert (E : Reqb (-1) (-1) = true) by now apply Reqb_true.
    rewrite E. simpl. repeat split; reflexivity.
  - assert (E : Reqb 1 (-1) = false) by (apply Reqb_false; lra).
    rewrite E. simpl. repeat split; reflexivity.
Qed.

Lemma newSpeed_bounds (b : Ball.t) :
  0 <= Ball.baseSpeed b ->
  0 <= newSpeed b <= speedCap b /\
  (Ball.currentSpeed b <= speedCap b -> Ball.currentSpeed b <= newSpeed b).
Proof.
  intros Hbase. pose proof (currentSpeed_nonneg b) as Hs.
  unfold newSpeed, speedCap in *. split; [ split | ].
  - apply Rmin_glb; lra.
  - apply Rmin_r.
  - intros Hcap. apply Rmin_glb; lra.
Qed.

Lemma collision_speed (b : Ball.t) (paddle : Paddle.t) :
  0 <= Ball.baseSpeed b ->
  Ball.overlaps b (Paddle.getBounds paddle) = true ->
  Ball.currentSpeed (fst (Ball.checkPaddleCollision b paddle)) = newSpeed b.
Proof.
  intros Hbase Hov.
  destruct (collision_fields b paddle Hov) as (_ & Hvx & Hvy & _).
  unfold Ball.currentSpeed at 1. rewrite Hvx, Hvy.
  apply polar_length.
  - now apply newSpeed_bounds.
  - destruct (Rgtb (Ball.vx b) 0); ring.
Qed.




(** An overlap bounds the bounce angle when the ball is at most half as
    tall as the paddle (8 against 40 with the constants of the game). *)
Lemma bounceAngle_bound (b : Ball.t) (paddle : Paddle.t) :
  Ball.overlaps b (Paddle.getBounds paddle) = true ->
  0 <= Ball.size b -> 2 * Ball.size b <= Paddle.height paddle ->
  - (PI / 2) < bounceAngle b paddle < PI / 2.
Proof.
  intros Hov Hsz Hh.
  apply overlaps_true in Hov. simpl in Hov.
  destruct Hov as (_ & _ & Hy1 & Hy2).
  pose proof PI_RGT_0 as Hpi.
  unfold bounceAngle.
  set (h := Paddle.height paddle) in *.
  set (u := Ball.y b + Ball.size b / 2 - (Paddle.y paddle + h / 2)).
  assert (Hhpos : 0 < h) by lra.
  assert (Hu : - (3 * h / 4) < u < 3 * h / 4) by (unfold u; lra).
  assert (Hrel : - (3 / 2) < u / (h / 2) < 3 / 2).
  { assert (Hq : u / (h / 2) = u * (2 / h)) by (field; lra).
    rewrite Hq.
    assert (Hinv : 0 < 2 / h) by (apply Rdiv_lt_0_compat; lra).
    assert (Hone : 3 * h / 4 * (2 / h) = 3 / 2) by (field; lra).
    destruct Hu as [Hu1 Hu2].
    apply (Rmult_lt_compat_r (2 / h)) in Hu1, Hu2; try exact Hinv.
    lra. }
  destruct Hrel as [Hr1 Hr2]. split; nra.
Qed.




(** ** The controller: the mirror loop of [updateAI] *)

Lemma bounces_exit (fuel : nat) (h p : R) :
  0 <= p <= h -> PongGame.bounces (S fuel) h p = Some p.
Proof.
  intros [H0 H1]. simpl. unfold Rgtb.
  assert (E1 : Rltb p 0 = false) by (apply Rltb_false; lra).
  assert (E2 : Rltb h p = false) by (apply Rltb_false; lra).
  now rewrite E1, E2.
Qed.

Lemma bounces_again (fuel : nat) (h p : R) :
  p < 0 \/ h < p ->
  PongGame.bounces (S fuel) h p
    = PongGame.bounces fuel h (PongGame.mirror h p).
Proof.
  intros H. simpl. unfold Rgtb.
  destruct H as [H | H].
  - assert (E : Rltb p 0 = true) by now apply Rltb_true.
    now rewrite E.
  - assert (E : Rltb h p = true) by now apply Rltb_true.
    rewrite E. now rewrite orb_true_r.
Qed.

(** One pass of the loop body brings a prediction that is out of range
    closer by twice the field height, or into range. *)
Lemma mirror_closer (h p c : R) :
  0 < h -> 0 <= c ->
  p < 0 \/ h < p ->
  - (c + 2 * h) <= p <= c + 2 * h ->
  (- c <= PongGame.mirror h p <= c \/ 0 <= PongGame.mirror h p <= h).
Proof.
  intros Hh Hc Hout Hp. unfold PongGame.mirror.
  cmp; lra.
Qed.

Lemma bounces_bounded (h : R) (n : nat) :
  0 < h ->
  forall p : R,
    - (h + 2 * h * INR n) <= p <= h + 2 * h * INR n ->
    forall fuel : nat, (n + 2 <= fuel)%nat ->
      exists q, PongGame.bounces fuel h p = Some q /\ 0 <= q <= h.
Proof.
  intros Hh. induction n as [ | n IH ]; intros p Hp fuel Hfuel.
  - simpl in Hp. rewrite Rmult_0_r, Rplus_0_r in Hp.
    destruct fuel as [ | [ | fuel ] ]; try lia.
    destruct (Rlt_dec p 0) as [Hneg | Hpos].
    + rewrite bounces_again by now left.
      assert (Hm : PongGame.mirror h p = - p).
      { unfold PongGame.mirror. cmp; lra. }
      rewrite Hm. exists (- p). split; [ apply bounces_exit | ]; lra.
    + exists p. split; [ apply bounces_exit | ]; lra.
  - rewrite S_INR in Hp.
    destruct fuel as [ | fuel ]; [ lia | ].
    destruct (Rlt_dec p 0) as [Hneg | Hnn];
      [ | destruct (Rlt_dec h p) as [Hbig | Hsmall] ].
    + rewrite bounces_again by now left.
      assert (Hc : 0 <= h + 2 * h * INR n)
        by (pose proof (pos_INR n); nra).
      destruct (mirror_closer h p (h + 2 * h * INR n) Hh Hc) as [Hm | Hm];
        [ now left | lra | | ].
      * apply IH; [ exact Hm | lia ].
      * exists (PongGame.mirror h p).
        destruct fuel; [ lia | ]. split; [ now apply bounces_exit | exact Hm ].
    + rewrite bounces_again by now right.
      assert (Hc : 0 <= h + 2 * h * INR n)
        by (pose proof (pos_INR n); nra).
      destruct (mirror_closer h p (h + 2 * h * INR n) Hh Hc) as [Hm | Hm];
        [ now right | lra | | ].
      * apply IH; [ exact Hm | lia ].
      * exists (PongGame.mirror h p).
        destruct fuel; [ lia | ]. split; [ now apply bounces_exit | exact Hm ].
    + exists p. split; [ apply bounces_exit | ]; lra.
Qed.

(** The loop is left after finitely many passes whenever the field has a
    positive height. *)
Lemma bounces_terminates (h p : R) :
  0 < h ->
  exists n : nat, forall fuel : nat, (n <= fuel)%nat ->
    exists q, PongGame.bounces fuel h p = Some q /\ 0 <= q <= h.
Proof.
  intros Hh.
  destruct (INR_archimed (2 * h) (Rabs p)) as [n Hn]; [ lra | ].
  exists (n + 2)%nat. intros fuel Hfuel.
  apply (bounces_bounded h n Hh); [ | exact Hfuel ].
  assert (Habs : - Rabs p <= p <= Rabs p).
  { split.
    - pose proof (Rle_abs (- p)) as H. rewrite Rabs_Ropp in H. lra.
    - apply Rle_abs. }
  lra.
Qed.

(** On a field without height the loop never ends unless the prediction is
    zero from the start: the positive height is needed. *)
Lemma bounces_flat_field (fuel : nat) :
  forall p : R, p <> 0 -> PongGame.bounces fuel 0 p = None.
Proof.
  induction fuel as [ | fuel IH ]; intros p Hp; [ reflexivity | ].
  rewrite bounces_again by lra.
  apply IH. unfold PongGame.mirror. cmp; lra.
Qed.



(** ** ScoreDisplay *)

Lemma setPlayerScore_scores (d : ScoreDisplay.t) (n : Z) :
  ScoreDisplay.getPlayerScore (ScoreDisplay.setPlayerScore d n) = n /\
  ScoreDisplay.getAiScore (ScoreDisplay.setPlayerScore d n)
    = ScoreDisplay.getAiScore d.
Proof.
  unfold ScoreDisplay.setPlayerScore.
  destruct (Z.eqb_spec n (ScoreDisplay.playerScore d)) as [-> | Hne]; simpl;
    auto.
Qed.

Lemma setAiScore_scores (d : ScoreDisplay.t) (n : Z) :
  ScoreDisplay.getAiScore (ScoreDisplay.setAiScore d n) = n /\
  ScoreDisplay.getPlayerScore (ScoreDisplay.setAiScore d n)
    = ScoreDisplay.getPlayerScore d.
Proof.
  unfold ScoreDisplay.setAiScore.
  destruct (Z.eqb_spec n (ScoreDisplay.aiScore d)) as [-> | Hne]; simpl;
    auto.
Qed.

Lemma display_update_scores (d : ScoreDisplay.t) (deltaTime : R) :
  ScoreDisplay.getPlayerScore (ScoreDisplay.update d deltaTime)
    = ScoreDisplay.getPlayerScore d /\
  ScoreDisplay.getAiScore (ScoreDisplay.update d deltaTime)
    = ScoreDisplay.getAiScore d.
Proof.
  unfold ScoreDisplay.update.
  destruct (ScoreDisplay.isFlashing d); [ | auto ].
  destruct (Rgeb _ _); simpl; auto.
Qed.

Lemma raises_scores (d : ScoreDisplay.t) (o : ScoreDisplay.op) :
  ScoreDisplay.raises d o = true ->
  (ScoreDisplay.getPlayerScore d
     <= ScoreDisplay.getPlayerScore (ScoreDisplay.apply d o))%Z /\
  (ScoreDisplay.getAiScore d
     <= ScoreDisplay.getAiScore (ScoreDisplay.apply d o))%Z.
Proof.
  destruct o as [ n | n | dt | ]; simpl; intros H.
  - apply Z.leb_le in H.
    destruct (setPlayerScore_scores d n) as [-> ->].
    unfold ScoreDisplay.getPlayerScore. lia.
  - apply Z.leb_le in H.
    destruct (setAiScore_scores d n) as [-> ->].
    unfold ScoreDisplay.getAiScore. lia.
  - destruct (display_update_scores d dt) as [-> ->]. lia.
  - discriminate.
Qed.

Lemma raising_scores (ops : list ScoreDisplay.op) :
  forall d : ScoreDisplay.t,
    ScoreDisplay.raising d ops = true ->
    (ScoreDisplay.getPlayerScore d
       <= ScoreDisplay.getPlayerScore (ScoreDisplay.run d ops))%Z /\
    (ScoreDisplay.getAiScore d
       <= ScoreDisplay.getAiScore (ScoreDisplay.run d ops))%Z.
Proof.
  induction ops as [ | o rest IH ]; intros d H.
  - simpl. lia.
  - simpl in H. apply andb_true_iff in H. destruct H as [Ho Hrest].
    destruct (raises_scores d o Ho) as [H1 H2].
    destruct (IH (ScoreDisplay.apply d o) Hrest) as [H3 H4].
    change (ScoreDisplay.run d (o :: rest))
      with (ScoreDisplay.run (ScoreDisplay.apply d o) rest).
    lia.
Qed.

(** ** The controller: scoring *)

Lemma check_static (b : Ball.t) (paddle : Paddle.t) :
  Ball.size (fst (Ball.checkPaddleCollision b paddle)) = Ball.size b /\
  Ball.canvasWidth (fst (Ball.checkPaddleCollision b paddle))
    = Ball.canvasWidth b /\
  Ball.canvasHeight (fst (Ball.checkPaddleCollision b paddle))
    = Ball.canvasHeight b.
Proof.
  unfold Ball.checkPaddleCollision.
  destruct (Ball.overlaps b (Paddle.getBounds paddle)); [ | simpl; auto ].
  destruct (Reqb _ _); simpl; auto.
Qed.

Lemma reset_at_rest (b : Ball.t) :
  Ball.vx (Ball.reset b) = 0 /\ Ball.vy (Ball.reset b) = 0 /\
  Ball.isMoving (Ball.reset b) = false.
Proof.
  unfold Ball.isMoving; simpl.
  assert (E0 : Rneqb 0 0 = false).
  { unfold Rneqb. assert (Reqb 0 0 = true) as -> by now apply Reqb_true.
    reflexivity. }
  rewrite E0. auto.
Qed.

Lemma scored_display_scores (d : ScoreDisplay.t) (edge : Edge) :
  let d' := scored_display d edge in
  (edge = left ->
   ScoreDisplay.getAiScore d' = (ScoreDisplay.getAiScore d + 1)%Z /\
   ScoreDisplay.getPlayerScore d' = ScoreDisplay.getPlayerScore d) /\
  (edge = right ->
   ScoreDisplay.getPlayerScore d' = (ScoreDisplay.getPlayerScore d + 1)%Z /\
   ScoreDisplay.getAiScore d' = ScoreDisplay.getAiScore d).
Proof.
  destruct edge; simpl; split; intros H; try discriminate.
  - apply setAiScore_scores.
  - apply setPlayerScore_scores.
Qed.

Lemma handleScoring_display (g : PongGame.t) (edge : Edge) :
  PongGame.scoreDisplay (PongGame.handleScoring g (Some edge))
    = scored_display (PongGame.scoreDisplay g) edge.
Proof.
  unfold PongGame.handleScoring. fold (scored_display (PongGame.scoreDisplay g) edge).
  destruct (_ || _); reflexivity.
Qed.

Lemma handleScoring_over (g : PongGame.t) (edge : Edge) :
  let d' := scored_display (PongGame.scoreDisplay g) edge in
  (PONG_CONFIG.WINNING_SCORE <= ScoreDisplay.getPlayerScore d' \/
   PONG_CONFIG.WINNING_SCORE <= ScoreDisplay.getAiScore d')%Z ->
  PongGame.handleScoring g (Some edge)
    = PongGame.with_state (PongGame.with_scoreDisplay g d') GAME_OVER.
Proof.
  intros d' H. unfold PongGame.handleScoring.
  fold (scored_display (PongGame.scoreDisplay g) edge). fold d'.
  assert (E : Z.geb (ScoreDisplay.getPlayerScore d') PONG_CONFIG.WINNING_SCORE
              || Z.geb (ScoreDisplay.getAiScore d') PONG_CONFIG.WINNING_SCORE
              = true).
  { apply orb_true_iff. rewrite !Z.geb_le. exact H. }
  now rewrite E.
Qed.

Lemma handleScoring_pause (g : PongGame.t) (edge : Edge) :
  let d' := scored_display (PongGame.scoreDisplay g) edge in
  (ScoreDisplay.getPlayerScore d' < PONG_CONFIG.WINNING_SCORE)%Z ->
  (ScoreDisplay.getAiScore d' < PONG_CONFIG.WINNING_SCORE)%Z ->
  PongGame.handleScoring g (Some edge)
    = PongGame.with_ball
        (PongGame.with_scoreDelayTimer
           (PongGame.with_state (PongGame.with_scoreDisplay g d') SCORED) 0)
        (Ball.reset (PongGame.ball g)).
Proof.
  intros d' H1 H2. unfold PongGame.handleScoring.
  fold (scored_display (PongGame.scoreDisplay g) edge). fold d'.
  assert (E : Z.geb (ScoreDisplay.getPlayerScore d') PONG_CONFIG.WINNING_SCORE
              || Z.geb (ScoreDisplay.getAiScore d') PONG_CONFIG.WINNING_SCORE
              = false).
  { apply orb_false_iff. split.
    - destruct (Z.geb_spec (ScoreDisplay.getPlayerScore d')
                           PONG_CONFIG.WINNING_SCORE); [ lia | reflexivity ].
    - destruct (Z.geb_spec (ScoreDisplay.getAiScore d')
                           PONG_CONFIG.WINNING_SCORE); [ lia | reflexivity ]. }
  now rewrite E.
Qed.

(** [updateAI] returns once the loop has fuel enough, and it touches the AI
    paddle and nothing else. *)
Lemma updateAI_returns (g : PongGame.t) (deltaTime : R) (s : Random) :
  0 < dim_height (PongGame.dimensions g) ->
  exists n : nat, forall fuel : nat, (n <= fuel)%nat ->
    exists paddle s',
      PongGame.updateAI fuel g deltaTime s
        = Some (PongGame.with_aiPaddle g paddle, s').
Proof.
  intros Hh. unfold PongGame.updateAI, PongGame.predict.
  destruct (Rgtb (Ball.vx (PongGame.ball g)) 0).
  - destruct (bounces_terminates (dim_height (PongGame.dimensions g))
                (Ball.y (PongGame.ball g)
                 + Ball.vy (PongGame.ball g)
                   * ((Paddle.x (PongGame.aiPaddle g)
                       - Ball.x (PongGame.ball g))
                      / Ball.vx (PongGame.ball g))) Hh) as [n Hn].
    exists n. intros fuel Hfuel.
    destruct (Hn fuel Hfuel) as (q & -> & _).
    simpl. eauto.
  - exists 0%nat. intros fuel _. eauto.
Qed.

Lemma updateAI_frame (fuel : nat) (g g' : PongGame.t) (deltaTime : R)
      (s s' : Random) :
  PongGame.updateAI fuel g deltaTime s = Some (g', s') ->
  g' = PongGame.with_aiPaddle g (PongGame.aiPaddle g').
Proof.
  unfold PongGame.updateAI.
  destruct (Rgtb _ _).
  - destruct (PongGame.predict fuel g); [ | discriminate ].
    simpl. intros H. injection H as <- _. reflexivity.
  - intros H. injection H as <- _. reflexivity.
Qed.

Lemma updatePlaying_eq (fuel : nat) (g : PongGame.t) (deltaTime : R)
      (s s' : Random) (paddle : Paddle.t) :
  PongGame.updateAI fuel g deltaTime s
    = Some (PongGame.with_aiPaddle g paddle, s') ->
  PongGame.updatePlaying fuel g deltaTime s
    = Some (PongGame.handleScoring
              (PongGame.with_ball (PongGame.with_aiPaddle g paddle)
                 (played_ball g paddle deltaTime))
              (snd (Ball.update (PongGame.ball g) deltaTime)), s').
Proof.
  intros H. unfold PongGame.updatePlaying. rewrite H.
  unfold played_ball. simpl PongGame.ball. simpl PongGame.playerPaddle.
  simpl PongGame.aiPaddle.
  destruct (Ball.update (PongGame.ball g) deltaTime) as [b1 scored].
  cbn [fst snd].
  destruct (Ball.checkPaddleCollision b1 (PongGame.playerPaddle g))
    as [b2 hit2].
  cbn [fst snd].
  destruct (Ball.checkPaddleCollision b2 paddle) as [b3 hit3].
  reflexivity.
Qed.

Lemma played_ball_static (g : PongGame.t) (paddle : Paddle.t) (deltaTime : R) :
  let b := PongGame.ball g in
  let b' := played_ball g paddle deltaTime in
  Ball.size b' = Ball.size b /\
  Ball.canvasWidth b' = Ball.canvasWidth b /\
  Ball.canvasHeight b' = Ball.canvasHeight b.
Proof.
  intros b b'. subst b b'. unfold played_ball.
  destruct (check_static
              (fst (Ball.checkPaddleCollision
                      (fst (Ball.update (PongGame.ball g) deltaTime))
                      (PongGame.playerPaddle g))) paddle) as (-> & -> & ->).
  destruct (check_static (fst (Ball.update (PongGame.ball g) deltaTime))
                         (PongGame.playerPaddle g)) as (-> & -> & ->).
  apply update_static.
Qed.

(** C1: when [Ball.update] signals a crossing, [updatePlaying] returns (the
    field having a positive height, the loop of [updateAI] is left) with
    the score of the side that scored one higher and the other score as it
    was: the AI's for ['left'], the player's for ['right'].  If one of the
    two scores is then 11 or more the state is [GAME_OVER]; if not, the
    state is [SCORED], the delay timer is 0 and the ball lies centred in
    its field with no velocity. *)
Theorem C1_scoring_transition :
  forall (g : PongGame.t) (deltaTime : R) (s : Random) (edge : Edge),
    0 < dim_height (PongGame.dimensions g) ->
    snd (Ball.update (PongGame.ball g) deltaTime) = Some edge ->
    exists n : nat, forall fuel : nat, (n <= fuel)%nat ->
      exists g' s',
        PongGame.updatePlaying fuel g deltaTime s = Some (g', s') /\
        let d := PongGame.scoreDisplay g in
        let d' := PongGame.scoreDisplay g' in
        let b := PongGame.ball g in
        let b' := PongGame.ball g' in
        (edge = left ->
         ScoreDisplay.getAiScore d' = (ScoreDisplay.getAiScore d + 1)%Z /\
         ScoreDisplay.getPlayerScore d' = ScoreDisplay.getPlayerScore d) /\
        (edge = right ->
         ScoreDisplay.getPlayerScore d'
           = (ScoreDisplay.getPlayerScore d + 1)%Z /\
         ScoreDisplay.getAiScore d' = ScoreDisplay.getAiScore d) /\
        ((PONG_CONFIG.WINNING_SCORE <= ScoreDisplay.getPlayerScore d' \/
          PONG_CONFIG.WINNING_SCORE <= ScoreDisplay.getAiScore d')%Z ->
         PongGame.state g' = GAME_OVER) /\
        ((ScoreDisplay.getPlayerScore d' < PONG_CONFIG.WINNING_SCORE)%Z ->
         (ScoreDisplay.getAiScore d' < PONG_CONFIG.WINNING_SCORE)%Z ->
         PongGame.state g' = SCORED /\
         PongGame.scoreDelayTimer g' = 0 /\
         Ball.x b' = Ball.canvasWidth b / 2 - Ball.size b / 2 /\
         Ball.y b' = Ball.canvasHeight b / 2 - Ball.size b / 2 /\
         Ball.vx b' = 0 /\ Ball.vy b' = 0 /\
         Ball.isMoving b' = false).
Proof.
  intros g deltaTime s edge Hh Hsignal.
  destruct (updateAI_returns g deltaTime s Hh) as [n Hn].
  exists n. intros fuel Hfuel.
  destruct (Hn fuel Hfuel) as (paddle & s' & HAI).
  pose proof (updatePlaying_eq fuel g deltaTime s s' paddle HAI) as Hplay.
  rewrite Hsignal in Hplay.
  set (g1 := PongGame.with_ball (PongGame.with_aiPaddle g paddle)
               (played_ball g paddle deltaTime)) in *.
  exists (PongGame.handleScoring g1 (Some edge)), s'.
  split; [ exact Hplay | ].
  cbv zeta.
  rewrite (handleScoring_display g1 edge).
  change (PongGame.scoreDisplay g1) with (PongGame.scoreDisplay g).
  destruct (scored_display_scores (PongGame.scoreDisplay g) edge)
    as [Hleft Hright].
  split; [ exact Hleft | ]. split; [ exact Hright | ].
  split.
  - intros Hwin.
    rewrite (handleScoring_over g1 edge Hwin). reflexivity.
  - intros Hp Ha.
    rewrite (handleScoring_pause g1 edge Hp Ha).
    destruct (played_ball_static g paddle deltaTime) as (Hsz & Hw & Hht).
    simpl. rewrite Hsz, Hw, Hht.
    repeat split; try reflexivity.
    apply (reset_at_rest (played_ball g paddle deltaTime)).
Qed.

Lemma C1_scoring_transition_witness :
  let g0 := PongGame.init DEFAULT_DIMENSIONS in
  let g := PongGame.with_ball g0
             (Ball.with_vel (Ball.with_pos (PongGame.ball g0) (-100) 71)
                            (-1) 0) in
  exists n : nat, forall fuel : nat, (n <= fuel)%nat ->
    exists g' s',
      PongGame.updatePlaying fuel g 10 (fun _ => 0) = Some (g', s') /\
      ScoreDisplay.getAiScore (PongGame.scoreDisplay g') = 1%Z /\
      PongGame.state g' = SCORED.
Proof.
  intros g0 g.
  assert (Hh : 0 < dim_height (PongGame.dimensions g)) by (simpl; lra).
  assert (Hsig : snd (Ball.update (PongGame.ball g) 10) = Some left).
  { change (Ball.edgeCheck (fst (Ball.update (PongGame.ball g) 10))
            = Some left).
    apply edgeCheck_left. rewrite update_x.
    destruct (update_static (PongGame.ball g) 10) as (-> & _).
    simpl. unfold PONG_CONFIG.BALL_SIZE, NOMINAL_FRAME_MS. lra. }
  destruct (C1_scoring_transition g 10 (fun _ => 0) left Hh Hsig) as [n Hn].
  exists n. intros fuel Hfuel.
  destruct (Hn fuel Hfuel) as (g' & s' & Hrun & Hleft & _ & _ & Hpause).
  destruct (Hleft eq_refl) as [Hai Hpl].
  exists g', s'. split; [ exact Hrun | ]. split; [ exact Hai | ].
  apply Hpause.
  - rewrite Hpl. reflexivity.
  - rewrite Hai. reflexivity.
Defined.

(** ** The controller: the pause after a score *)

Lemma launch_with_moving (b : Ball.t) (towardPlayer : bool) (draw : R) :
  0 <= draw < 1 -> 0 < Ball.baseSpeed b ->
  Ball.isMoving (Ball.launch_with b towardPlayer draw) = true.
Proof.
  intros Hdraw Hbase.
  assert (Ha : - (PI / 4) <= (draw - 5 / 10) * PI / 2 <= PI / 4).
  { pose proof (launch_angle draw Hdraw). lra. }
  destruct (octant _ Ha) as [Hc _].
  assert (Hprod : 0 < cos ((draw - 5 / 10) * PI / 2) * Ball.baseSpeed b)
    by now apply Rmult_lt_0_compat.
  unfold Ball.isMoving. apply orb_true_iff. left.
  unfold Rneqb. apply negb_true_iff. apply Reqb_false.
  simpl. destruct towardPlayer; lra.
Qed.

(** C6: [updateScored] adds the frame's time to the delay timer.  While the
    sum is below 1000 the state stays [SCORED], the ball is the ball it was
    (at rest if it was at rest) and no random number is drawn.  Once the sum
    is 1000 or more the state is [PLAYING] and the ball has been launched,
    toward the player when the first draw exceeds 0.5, at the angle of the
    second draw: it moves. *)
Theorem C6_pause_then_launch :
  forall (g : PongGame.t) (deltaTime : R) (s : Random),
    PongGame.state g = SCORED ->
    let g' := fst (PongGame.updateScored g deltaTime s) in
    let s' := snd (PongGame.updateScored g deltaTime s) in
    PongGame.scoreDelayTimer g' = PongGame.scoreDelayTimer g + deltaTime /\
    (PongGame.scoreDelayTimer g + deltaTime < PONG_CONFIG.SCORE_DELAY ->
     PongGame.state g' = SCORED /\
     PongGame.ball g' = PongGame.ball g /\
     Ball.isMoving (PongGame.ball g') = Ball.isMoving (PongGame.ball g) /\
     s' = s) /\
    (PONG_CONFIG.SCORE_DELAY <= PongGame.scoreDelayTimer g + deltaTime ->
     PongGame.state g' = PLAYING /\
     PongGame.ball g'
       = Ball.launch_with (PongGame.ball g) (Rgtb (s 0%nat) (5 / 10))
                          (s 1%nat) /\
     (0 <= s 1%nat < 1 -> 0 < Ball.baseSpeed (PongGame.ball g) ->
      Ball.isMoving (PongGame.ball g') = true)).
Proof.
  intros g deltaTime s Hstate g' s'.
  unfold g', s', PongGame.updateScored.
  simpl PongGame.scoreDelayTimer.
  destruct (Rgeb (PongGame.scoreDelayTimer g + deltaTime)
                 PONG_CONFIG.SCORE_DELAY) eqn:E.
  - apply Rleb_true in E. simpl.
    split; [ reflexivity | ]. split; [ intros H; lra | ].
    intros _. split; [ reflexivity | ]. split; [ reflexivity | ].
    intros Hdraw Hbase. now apply launch_with_moving.
  - apply Rleb_false in E. simpl.
    split; [ reflexivity | ]. split; [ | intros H; lra ].
    intros _. auto.
Qed.

Lemma C6_pause_then_launch_witness :
  let g := PongGame.with_state (PongGame.init DEFAULT_DIMENSIONS) SCORED in
  let s : Random := fun _ => 7 / 10 in
  PongGame.state (fst (PongGame.updateScored g 400 s)) = SCORED /\
  PongGame.state (fst (PongGame.updateScored g 1000 s)) = PLAYING /\
  Ball.isMoving (PongGame.ball (fst (PongGame.updateScored g 1000 s))) = true.
Proof.
  intros g s.
  destruct (C6_pause_then_launch g 400 s eq_refl) as (_ & Hwait & _).
  destruct (C6_pause_then_launch g 1000 s eq_refl) as (_ & _ & Hgo).
  split.
  - apply Hwait. simpl. unfold PONG_CONFIG.SCORE_DELAY. lra.
  - assert (Hd : PONG_CONFIG.SCORE_DELAY
                 <= PongGame.scoreDelayTimer g + 1000)
      by (simpl; unfold PONG_CONFIG.SCORE_DELAY; lra).
    destruct (Hgo Hd) as (Hst & _ & Hmove).
    split; [ exact Hst | ]. apply Hmove.
    + unfold s. lra.
    + simpl. unfold PONG_CONFIG.BALL_SPEED. lra.
Defined.

(** ** Scores over the frames of the controller *)

Lemma updateScored_display (g : PongGame.t) (deltaTime : R) (s : Random) :
  PongGame.scoreDisplay (fst (PongGame.updateScored g deltaTime s))
    = PongGame.scoreDisplay g.
Proof.
  unfold PongGame.updateScored. destruct (Rgeb _ _); reflexivity.
Qed.

Lemma handleScoring_scores (g : PongGame.t) (scored : option Edge) :
  (ScoreDisplay.getPlayerScore (PongGame.scoreDisplay g)
     <= ScoreDisplay.getPlayerScore
          (PongGame.scoreDisplay (PongGame.handleScoring g scored)))%Z /\
  (ScoreDisplay.getAiScore (PongGame.scoreDisplay g)
     <= ScoreDisplay.getAiScore
          (PongGame.scoreDisplay (PongGame.handleScoring g scored)))%Z.
Proof.
  destruct scored as [ edge | ]; [ | simpl; lia ].
  rewrite handleScoring_display.
  destruct (scored_display_scores (PongGame.scoreDisplay g) edge) as [Hl Hr].
  destruct edge.
  - destruct (Hl eq_refl) as [-> ->]. lia.
  - destruct (Hr eq_refl) as [-> ->]. lia.
Qed.

Lemma updatePlaying_scores (fuel : nat) (g g' : PongGame.t) (deltaTime : R)
      (s s' : Random) :
  PongGame.updatePlaying fuel g deltaTime s = Some (g', s') ->
  (ScoreDisplay.getPlayerScore (PongGame.scoreDisplay g)
     <= ScoreDisplay.getPlayerScore (PongGame.scoreDisplay g'))%Z /\
  (ScoreDisplay.getAiScore (PongGame.scoreDisplay g)
     <= ScoreDisplay.getAiScore (PongGame.scoreDisplay g'))%Z.
Proof.
  intros H.
  destruct (PongGame.updateAI fuel g deltaTime s) as [ [g1 s1] | ] eqn:HAI.
  - pose proof (updateAI_frame fuel g g1 deltaTime s s1 HAI) as Hg1.
    rewrite Hg1 in HAI.
    rewrite (updatePlaying_eq fuel g deltaTime s s1 _ HAI) in H.
    injection H as <- _.
    apply (handleScoring_scores
             (PongGame.with_ball
                (PongGame.with_aiPaddle g (PongGame.aiPaddle g1))
                (played_ball g (PongGame.aiPaddle g1) deltaTime))).
  - unfold PongGame.updatePlaying in H. rewrite HAI in H. discriminate.
Qed.

Lemma frame_scores (fuel : nat) (g g' : PongGame.t) (now : R)
      (s s' : Random) :
  PongGame.update fuel g now s = Some (g', s') ->
  (ScoreDisplay.getPlayerScore (PongGame.scoreDisplay g)
     <= ScoreDisplay.getPlayerScore (PongGame.scoreDisplay g'))%Z /\
  (ScoreDisplay.getAiScore (PongGame.scoreDisplay g)
     <= ScoreDisplay.getAiScore (PongGame.scoreDisplay g'))%Z.
Proof.
  unfold PongGame.update.
  set (deltaTime := now - (if Reqb (PongGame.time g) 0 then now
                           else PongGame.time g)).
  cbv zeta.
  match goal with
  | |- context [GameState_eqb (PongGame.state ?x) PLAYING] => set (g3 := x)
  end.
  assert (Hd3 : PongGame.scoreDisplay g3 = PongGame.scoreDisplay g).
  { unfold g3. repeat destruct (_ || _); reflexivity. }
  destruct (GameState_eqb (PongGame.state g3) PLAYING).
  - destruct (PongGame.updatePlaying fuel g3 deltaTime s)
      as [ [g4 s4] | ] eqn:Hp; [ | discriminate ].
    intros H. injection H as <- _. simpl PongGame.scoreDisplay.
    destruct (display_update_scores (PongGame.scoreDisplay g4) deltaTime)
      as [-> ->].
    rewrite <- Hd3. exact (updatePlaying_scores fuel g3 g4 deltaTime s s4 Hp).
  - destruct (GameState_eqb (PongGame.state g3) SCORED).
    + destruct (PongGame.updateScored g3 deltaTime s) as [g4 s4] eqn:Hs.
      intros H. injection H as <- _. simpl PongGame.scoreDisplay.
      destruct (display_update_scores (PongGame.scoreDisplay g4) deltaTime)
        as [-> ->].
      pose proof (updateScored_display g3 deltaTime s) as Hd4.
      rewrite Hs in Hd4. simpl in Hd4. rewrite Hd4, Hd3. lia.
    + intros H. injection H as <- _. simpl PongGame.scoreDisplay.
      destruct (display_update_scores (PongGame.scoreDisplay g3) deltaTime)
        as [-> ->].
      rewrite Hd3. lia.
Qed.

(** C8, as the code has it: a setter stores the value it is given, so the
    scores cannot go down along a sequence of calls in which every setter
    is handed at least the current score and there is no [reset], which
    puts both at zero.  The controller calls the setters with the current
    score plus one and nothing else, so no frame of the game lowers a
    score. *)
Theorem C8_scores_kept_by_raising_calls :
  (forall (d : ScoreDisplay.t) (ops : list ScoreDisplay.op),
      ScoreDisplay.raising d ops = true ->
      (ScoreDisplay.getPlayerScore d
         <= ScoreDisplay.getPlayerScore (ScoreDisplay.run d ops))%Z /\
      (ScoreDisplay.getAiScore d
         <= ScoreDisplay.getAiScore (ScoreDisplay.run d ops))%Z) /\
  (forall (d : ScoreDisplay.t) (n : Z),
      ScoreDisplay.getPlayerScore (ScoreDisplay.setPlayerScore d n) = n /\
      ScoreDisplay.getAiScore (ScoreDisplay.setPlayerScore d n)
        = ScoreDisplay.getAiScore d /\
      ScoreDisplay.getAiScore (ScoreDisplay.setAiScore d n) = n /\
      ScoreDisplay.getPlayerScore (ScoreDisplay.setAiScore d n)
        = ScoreDisplay.getPlayerScore d) /\
  (forall d : ScoreDisplay.t,
      ScoreDisplay.getPlayerScore (ScoreDisplay.reset d) = 0%Z /\
      ScoreDisplay.getAiScore (ScoreDisplay.reset d) = 0%Z) /\
  (forall (fuel : nat) (g g' : PongGame.t) (now : R) (s s' : Random),
      PongGame.update fuel g now s = Some (g', s') ->
      (ScoreDisplay.getPlayerScore (PongGame.scoreDisplay g)
         <= ScoreDisplay.getPlayerScore (PongGame.scoreDisplay g'))%Z /\
      (ScoreDisplay.getAiScore (PongGame.scoreDisplay g)
         <= ScoreDisplay.getAiScore (PongGame.scoreDisplay g'))%Z).
Proof.
  split; [ | split; [ | split ] ].
  - intros d ops. apply raising_scores.
  - intros d n.
    destruct (setPlayerScore_scores d n) as [H1 H2].
    destruct (setAiScore_scores d n) as [H3 H4]. auto.
  - intros d. split; reflexivity.
  - intros fuel g g' now s s'. apply frame_scores.
Qed.

Lemma C8_scores_kept_by_raising_calls_witness :
  let d := ScoreDisplay.new 600 150 in
  let ops := [ScoreDisplay.SetPlayerScore 1; ScoreDisplay.SetAiScore 1;
              ScoreDisplay.SetPlayerScore 2] in
  (ScoreDisplay.getPlayerScore d
     <= ScoreDisplay.getPlayerScore (ScoreDisplay.run d ops))%Z /\
  (ScoreDisplay.getAiScore d
     <= ScoreDisplay.getAiScore (ScoreDisplay.run d ops))%Z.
Proof.
  intros d ops.
  destruct C8_scores_kept_by_raising_calls as (Hrun & _).
  apply Hrun. reflexivity.
Defined.

(** The claim of C8 that every setter call keeps or raises the score fails:
    [setPlayerScore(2)] after [setPlayerScore(5)] has [getPlayerScore()]
    return 2, less than the 5 it returned before, with no [reset] between. *)
Lemma C8_counterexample :
  let d := ScoreDisplay.new 600 150 in
  let d1 := ScoreDisplay.run d [ScoreDisplay.SetPlayerScore 5] in
  let d2 := ScoreDisplay.run d [ScoreDisplay.SetPlayerScore 5;
                                ScoreDisplay.SetPlayerScore 2] in
  ScoreDisplay.getPlayerScore d1 = 5%Z /\
  ScoreDisplay.getPlayerScore d2 = 2%Z /\
  (ScoreDisplay.getPlayerScore d2 < ScoreDisplay.getPlayerScore d1)%Z.
Proof.
  cbn. repeat split.
Qed.

(** ** The scenarios of the specification *)

(** A ball at rest, launched away from the player with the draw that gives
    the angle 0, moves horizontally at the base speed. *)
Example launch_straight :
  let b := fst (Ball.launch (Ball.new 600 150) false (fun _ => 5 / 10)) in
  Ball.vx b = PONG_CONFIG.BALL_SPEED /\ Ball.vy b = 0.
Proof.
  simpl.
  replace ((5 / 10 - 5 / 10) * PI / 2) with 0 by lra.
  rewrite cos_0, sin_0. split; ring.
Qed.

(** Setting the player's score from 0 to 1 starts the flash on the player's
    side; it is over once the six flash durations have been accumulated. *)
Example flash_after_score :
  let d := ScoreDisplay.setPlayerScore (ScoreDisplay.new 600 150) 1 in
  ScoreDisplay.isFlashing d = true /\
  ScoreDisplay.flashingSide d = Some player /\
  ScoreDisplay.isFlashing (ScoreDisplay.update d 400) = true /\
  ScoreDisplay.isFlashing (ScoreDisplay.update d 900) = false.
Proof.
  cbn -[ScoreDisplay.update]. split; [ reflexivity | ].
  split; [ reflexivity | ].
  unfold ScoreDisplay.update; simpl.
  assert (E1 : Rgeb (0 + 400) (150 * 6) = false) by (apply Rleb_false; lra).
  assert (E2 : Rgeb (0 + 900) (150 * 6) = true) by (apply Rleb_true; lra).
  rewrite E1, E2. split; reflexivity.
Qed.

(** The start key takes the controller from [WAITING] to [PLAYING] at once,
    and from [GAME_OVER] to [PLAYING] with the scores back at zero. *)
Example start_key :
  let g := PongGame.init DEFAULT_DIMENSIONS in
  PongGame.state g = WAITING /\
  PongGame.state (PongGame.onKeyDown g KEY_CODES.SPACE) = PLAYING /\
  let over :=
    PongGame.with_state
      (PongGame.with_scoreDisplay g
         (ScoreDisplay.setAiScore (PongGame.scoreDisplay g) 11))
      GAME_OVER in
  PongGame.state (PongGame.onKeyDown over KEY_CODES.SPACE) = PLAYING /\
  ScoreDisplay.getAiScore
    (PongGame.scoreDisplay (PongGame.onKeyDown over KEY_CODES.SPACE)) = 0%Z.
Proof.
  cbn. repeat split.
Qed.

(** A prediction of -310 on the field of height 150 is mirrored twice:
    to -10 by the top and the bottom test of the first pass, to 10 by the
    second. *)
Example prediction_mirrored_twice :
  PongGame.bounces 3 150 (-310) = Some 10.
Proof.
  rewrite bounces_again by (left; lra).
  assert (H1 : PongGame.mirror 150 (-310) = -10)
    by (unfold PongGame.mirror; cmp; lra).
  rewrite H1, bounces_again by (left; lra).
  assert (H2 : PongGame.mirror 150 (-10) = 10)
    by (unfold PongGame.mirror; cmp; lra).
  rewrite H2. apply bounces_exit. lra.
Qed.

(** * Further properties of the code *)

(** ** Paddle: steering and opposite moves *)










(** ** Ball: walls, speed and separation *)

Lemma wall_cases (b : Ball.t) :
  let b' := Ball.bottomWall (Ball.topWall b) in
  Ball.x b' = Ball.x b /\ Ball.vx b' = Ball.vx b /\
  (Ball.vy b' = Ball.vy b \/ Ball.vy b' = - Ball.vy b) /\
  Ball.size b' = Ball.size b /\
  Ball.canvasWidth b' = Ball.canvasWidth b /\
  Ball.canvasHeight b' = Ball.canvasHeight b /\
  Ball.baseSpeed b' = Ball.baseSpeed b.
Proof.
  unfold Ball.bottomWall, Ball.topWall.
  destruct (Rleb (Ball.y b) 0); simpl;
    destruct (Rgeb _ _); simpl; repeat split;
    first [ left; reflexivity | right; reflexivity | left; ring ].
Qed.

Lemma walls_between (m : Ball.t) :
  Ball.size m <= Ball.canvasHeight m ->
  0 <= Ball.y (Ball.bottomWall (Ball.topWall m))
    <= Ball.canvasHeight m - Ball.size m.
Proof.
  intros Hfit.
  unfold Ball.bottomWall, Ball.topWall, Rgeb.
  destruct (Rleb (Ball.y m) 0) eqn:Etop;
    [ apply Rleb_true in Etop | apply Rleb_false in Etop ];
    match goal with
    | |- context [Rleb ?u ?v] =>
        destruct (Rleb u v) eqn:Ebot;
        [ apply Rleb_true in Ebot | apply Rleb_false in Ebot ]
    end; simpl in *; lra.
Qed.

(** X3: after [update] the ball lies between the top and the bottom wall,
    [0 <= y <= canvasHeight - size], wherever it was and however long the
    frame, as long as the ball is not taller than the field. *)
Theorem X3_update_keeps_ball_between_walls :
  forall (b : Ball.t) (deltaTime : R),
    Ball.size b <= Ball.canvasHeight b ->
    let b' := fst (Ball.update b deltaTime) in
    0 <= Ball.y b' <= Ball.canvasHeight b' - Ball.size b'.
Proof.
  intros b deltaTime Hfit b'.
  destruct (update_static b deltaTime) as (Hs & _ & Hh).
  fold b' in Hs, Hh. rewrite Hs, Hh.
  pose proof (walls_between (Ball.integrate b deltaTime)) as H.
  simpl Ball.size in H. simpl Ball.canvasHeight in H.
  exact (H Hfit).
Qed.

Lemma X3_update_keeps_ball_between_walls_witness :
  let b := Ball.with_vel (Ball.new 600 150) 3 (-4) in
  0 <= Ball.y (fst (Ball.update b 100000)) <= 142.
Proof.
  intros b.
  assert (Hfit : Ball.size b <= Ball.canvasHeight b)
    by (simpl; unfold PONG_CONFIG.BALL_SIZE; lra).
  pose proof (X3_update_keeps_ball_between_walls b 100000 Hfit) as H.
  cbv zeta in H.
  destruct (update_static b 100000) as (Hs & _ & Hh).
  rewrite Hs, Hh in H.
  change (Ball.canvasHeight b - Ball.size b) with (150 - 8) in H. lra.
Defined.


(** X5: the ball [checkPaddleCollision] hands back never overlaps the
    paddle it was tested against, so a second test against that paddle
    reports nothing and changes nothing. *)
Theorem X5_collision_separates :
  forall (b : Ball.t) (paddle : Paddle.t),
    let b' := fst (Ball.checkPaddleCollision b paddle) in
    Ball.overlaps b' (Paddle.getBounds paddle) = false /\
    Ball.checkPaddleCollision b' paddle = (b', false).
Proof.
  intros b paddle b'.
  assert (Hsep : Ball.overlaps b' (Paddle.getBounds paddle) = false).
  { destruct (Ball.overlaps b (Paddle.getBounds paddle)) eqn:Hov.
    - destruct (collision_fields b paddle Hov)
        as (_ & _ & _ & Hx & _ & Hsize & _).
      fold b' in Hx, Hsize.
      unfold Ball.overlaps. rewrite Hx, Hsize. simpl.
      destruct (Rgtb (Ball.vx b) 0).
      + assert (E : Rgtb (Paddle.x paddle - Ball.size b + Ball.size b)
                         (Paddle.x paddle) = false)
          by (apply Rltb_false; lra).
        rewrite E. now rewrite andb_false_r.
      + assert (E : Rltb (Paddle.x paddle + Paddle.width paddle)
                         (Paddle.x paddle + Paddle.width paddle) = false)
          by (apply Rltb_false; lra).
        now rewrite E.
    - unfold b', Ball.checkPaddleCollision. rewrite Hov. exact Hov. }
  split; [ exact Hsep | ].
  unfold Ball.checkPaddleCollision at 1. now rewrite Hsep.
Qed.

(** X6: the velocity after a collision is [newSpeed] at an angle of
    [relativeIntersect * 60] degrees, and [relativeIntersect] is not confined
    to [-1, 1]: the overlap test lets the ball's centre lie up to half a
    ball beyond either end of the paddle, so the angle ranges over
    [(1 + size / height) * 60] degrees to either side (72 with the constants
    8 and 40).  It is within 60 degrees when the ball's centre is level with
    the paddle, and beyond 60 degrees when the centre is past an end. *)
Theorem X6_bounce_angle_range :
  forall (b : Ball.t) (paddle : Paddle.t),
    Ball.overlaps b (Paddle.getBounds paddle) = true ->
    0 <= Ball.size b -> 0 < Paddle.height paddle ->
    let b' := fst (Ball.checkPaddleCollision b paddle) in
    let ballCenter := Ball.y b + Ball.size b / 2 in
    let top := Paddle.y paddle in
    let bottom := Paddle.y paddle + Paddle.height paddle in
    let limit := (1 + Ball.size b / Paddle.height paddle) * (PI / 3) in
    exists angle,
      Ball.vx b' = cos angle * newSpeed b
                   * (if Rgtb (Ball.vx b) 0 then -1 else 1) /\
      Ball.vy b' = sin angle * newSpeed b /\
      - limit < angle < limit /\
      (top <= ballCenter <= bottom -> - (PI / 3) <= angle <= PI / 3) /\
      (bottom < ballCenter -> PI / 3 < angle) /\
      (ballCenter < top -> angle < - (PI / 3)).
Proof.
  intros b paddle Hov Hsz Hh b' ballCenter top bottom limit.
  destruct (collision_fields b paddle Hov) as (_ & Hvx & Hvy & _).
  exists (bounceAngle b paddle).
  split; [ exact Hvx | ]. split; [ exact Hvy | ].
  apply overlaps_true in Hov. simpl in Hov.
  destruct Hov as (_ & _ & Hy1 & Hy2).
  pose proof PI_RGT_0 as Hpi.
  unfold bounceAngle, limit.
  set (h := Paddle.height paddle) in *.
  set (u := Ball.y b + Ball.size b / 2 - (Paddle.y paddle + h / 2)).
  assert (Hq : u / (h / 2) = u * (2 / h)) by (field; lra).
  assert (Hs : Ball.size b / h = Ball.size b / 2 * (2 / h)) by (field; lra).
  assert (Hinv : 0 < 2 / h) by (apply Rdiv_lt_0_compat; lra).
  assert (Hone : h / 2 * (2 / h) = 1) by (field; lra).
  rewrite Hq, Hs.
  set (k := 2 / h) in *.
  assert (Hu : - (h / 2 + Ball.size b / 2) < u < h / 2 + Ball.size b / 2)
    by (unfold u; lra).
  assert (Hrel : - (1 + Ball.size b / 2 * k) < u * k
                 < 1 + Ball.size b / 2 * k).
  { destruct Hu as [Hu1 Hu2].
    apply (Rmult_lt_compat_r k) in Hu1, Hu2; try exact Hinv.
    split; nra. }
  split; [ split; nra | ].
  split; [ | split ].
  - intros [Ht Hb]. unfold ballCenter, top, bottom in Ht, Hb.
    assert (Hin : - (h / 2) <= u <= h / 2) by (unfold u; lra).
    destruct Hin as [Hi1 Hi2].
    apply (Rmult_le_compat_r k) in Hi1, Hi2; try lra.
    assert (- 1 <= u * k <= 1) by (split; nra).
    split; nra.
  - intros Hb. unfold ballCenter, bottom in Hb.
    assert (Hout : h / 2 < u) by (unfold u; lra).
    apply (Rmult_lt_compat_r k) in Hout; try exact Hinv.
    assert (1 < u * k) by nra.
    nra.
  - intros Ht. unfold ballCenter, top in Ht.
    assert (Hout : u < - (h / 2)) by (unfold u; lra).
    apply (Rmult_lt_compat_r k) in Hout; try exact Hinv.
    assert (u * k < - 1) by nra.
    nra.
Qed.

Lemma X6_bounce_angle_range_witness :
  let b := Ball.with_vel (Ball.with_pos (Ball.new 600 150) 28 89) (-2) 1 in
  let paddle := Paddle.with_y (Paddle.new 20 150) 50 in
  exists angle,
    Ball.vy (fst (Ball.checkPaddleCollision b paddle))
      = sin angle * newSpeed b /\
    PI / 3 < angle < (1 + 8 / 40) * (PI / 3).
Proof.
  intros b paddle.
  assert (Hov : Ball.overlaps b (Paddle.getBounds paddle) = true).
  { apply overlaps_true; simpl.
    unfold PONG_CONFIG.BALL_SIZE, PONG_CONFIG.PADDLE_WIDTH,
      PONG_CONFIG.PADDLE_HEIGHT. lra. }
  assert (Hsz : 0 <= Ball.size b)
    by (simpl; unfold PONG_CONFIG.BALL_SIZE; lra).
  assert (Hh : 0 < Paddle.height paddle)
    by (simpl; unfold PONG_CONFIG.PADDLE_HEIGHT; lra).
  destruct (X6_bounce_angle_range b paddle Hov Hsz Hh)
    as (angle & _ & Hvy & Hlim & _ & Hbelow & _).
  exists angle. split; [ exact Hvy | ].
  split.
  - apply Hbelow. simpl.
    unfold PONG_CONFIG.BALL_SIZE, PONG_CONFIG.PADDLE_HEIGHT. lra.
  - exact (proj2 Hlim).
Defined.

(** ** ScoreDisplay: the flash animation *)

Lemma startFlash_inv (d : ScoreDisplay.t) (side : FlashSide) :
  0 < ScoreDisplay.flashDuration d ->
  flash_inv (ScoreDisplay.startFlash d side).
Proof.
  intros Hd. unfold flash_inv; simpl.
  split; [ exact Hd | ]. split.
  - intros _. split; [ discriminate | lra ].
  - discriminate.
Qed.

Lemma apply_flash_inv (d : ScoreDisplay.t) (o : ScoreDisplay.op) :
  forward o -> flash_inv d -> flash_inv (ScoreDisplay.apply d o).
Proof.
  intros Ho Hinv. pose proof Hinv as (Hd & Hon & Hoff).
  destruct o as [ n | n | dt | ]; simpl in *.
  - unfold ScoreDisplay.setPlayerScore.
    destruct (negb _); [ | exact Hinv ]. now apply startFlash_inv.
  - unfold ScoreDisplay.setAiScore.
    destruct (negb _); [ | exact Hinv ]. now apply startFlash_inv.
  - unfold ScoreDisplay.update.
    destruct (ScoreDisplay.isFlashing d) eqn:Ef; [ | exact Hinv ].
    destruct (Hon eq_refl) as [Hside Ht].
    destruct (Rgeb _ _) eqn:E; unfold flash_inv; simpl.
    + split; [ exact Hd | ]. split; [ discriminate | auto ].
    + apply Rleb_false in E.
      split; [ exact Hd | ]. split; [ | discriminate ].
      intros _. split; [ exact Hside | lra ].
  - unfold flash_inv; simpl.
    split; [ exact Hd | ]. split; [ discriminate | auto ].
Qed.

(** X7: from a new score display, whatever the sequence of setter calls,
    [reset]s and [update]s with frame times that are not negative, the
    flash state is consistent: while [isFlashing] holds a side is recorded
    and the timer lies in [0, 6 * flashDuration); otherwise no side is
    recorded and the timer is 0. *)
Theorem X7_flash_state_consistent :
  forall (canvasWidth canvasHeight : R) (ops : list ScoreDisplay.op),
    Forall forward ops ->
    flash_inv (ScoreDisplay.run (ScoreDisplay.new canvasWidth canvasHeight)
                                ops).
Proof.
  intros cw ch ops Hops.
  assert (H0 : flash_inv (ScoreDisplay.new cw ch)).
  { unfold flash_inv; simpl. split; [ lra | ].
    split; [ discriminate | auto ]. }
  revert H0. generalize (ScoreDisplay.new cw ch) as d.
  induction Hops as [ | o rest Ho Hrest IH ]; intros d Hd.
  - exact Hd.
  - apply (IH (ScoreDisplay.apply d o)). now apply apply_flash_inv.
Qed.

Lemma X7_flash_state_consistent_witness :
  flash_inv
    (ScoreDisplay.run (ScoreDisplay.new 600 150)
       [ScoreDisplay.SetPlayerScore 1; ScoreDisplay.Update 400;
        ScoreDisplay.SetAiScore 1; ScoreDisplay.Update 1000;
        ScoreDisplay.Reset]).
Proof.
  apply X7_flash_state_consistent.
  repeat constructor; simpl; lra.
Defined.






(** ** ScoreDisplay: what [draw] shows *)

Lemma int_part_between (t dur : R) (k : Z) :
  0 < dur -> IZR k * dur <= t < (IZR k + 1) * dur ->
  Int_part (t / dur) = k.
Proof.
  intros Hd [Hlo Hhi]. symmetry. apply Int_part_spec.
  assert (Hq : t / dur * dur = t) by (field; lra).
  set (q := t / dur) in *.
  split.
  - apply (Rmult_lt_reg_r dur); [ exact Hd | ]. nra.
  - apply (Rmult_le_reg_r dur); [ exact Hd | ]. nra.
Qed.

(** X9: during the 900 ms of a flash the flashing score is hidden in the
    second, fourth and sixth flash duration and shown in the first, third
    and fifth: three blinks. *)
Theorem X9_blink_phases :
  forall d : ScoreDisplay.t,
    0 < ScoreDisplay.flashDuration d ->
    ScoreDisplay.isFlashing d = true ->
    0 <= ScoreDisplay.flashTimer d < ScoreDisplay.flashDuration d * 6 ->
    let t := ScoreDisplay.flashTimer d in
    let dur := ScoreDisplay.flashDuration d in
    (ScoreDraw.hideFlashing d = true <->
     dur <= t < 2 * dur \/ 3 * dur <= t < 4 * dur \/ 5 * dur <= t < 6 * dur).
Proof.
  intros d Hd Hon [H0 H6] t dur. fold t dur in Hd, H0, H6.
  unfold ScoreDraw.hideFlashing. rewrite Hon. fold t dur. simpl andb.
  assert (Hk : forall k : Z,
             IZR k * dur <= t < (IZR k + 1) * dur ->
             Int_part (t / dur) = k)
    by (intros k; now apply int_part_between).
  destruct (Rlt_dec t dur) as [H1 | H1].
  { rewrite (Hk 0%Z) by (simpl; lra). simpl. split; [ discriminate | lra ]. }
  destruct (Rlt_dec t (2 * dur)) as [H2 | H2].
  { rewrite (Hk 1%Z) by (simpl; lra). simpl. split; [ lra | reflexivity ]. }
  destruct (Rlt_dec t (3 * dur)) as [H3 | H3].
  { rewrite (Hk 2%Z) by (simpl; lra). simpl. split; [ discriminate | lra ]. }
  destruct (Rlt_dec t (4 * dur)) as [H4 | H4].
  { rewrite (Hk 3%Z) by (simpl; lra). simpl. split; [ lra | reflexivity ]. }
  destruct (Rlt_dec t (5 * dur)) as [H5 | H5].
  { rewrite (Hk 4%Z) by (simpl; lra). simpl. split; [ discriminate | lra ]. }
  rewrite (Hk 5%Z) by (simpl; lra). simpl. split; [ lra | reflexivity ].
Qed.

Lemma X9_blink_phases_witness :
  let d := ScoreDisplay.setPlayerScore (ScoreDisplay.new 600 150) 1 in
  ScoreDraw.hideFlashing (ScoreDisplay.update d 200) = true /\
  ~ ScoreDraw.hideFlashing (ScoreDisplay.update d 400) = true.
Proof.
  intros d.
  assert (Hu : forall dt, 0 <= dt < 900 ->
             ScoreDisplay.update d dt
             = ScoreDisplay.mk 1 0 (0 + dt) 150 true (Some player) 600 150).
  { intros dt Hdt. unfold ScoreDisplay.update; simpl.
    assert (E : Rgeb (0 + dt) (150 * 6) = false)
      by (apply Rleb_false; lra).
    now rewrite E. }
  split.
  - rewrite Hu by lra.
    apply X9_blink_phases; simpl; try lra; reflexivity.
  - rewrite Hu by lra. intros H.
    apply X9_blink_phases in H; simpl in *; try lra; reflexivity.
Defined.





(** ** The entities along a game *)

Lemma speed_std_nonneg (p : Paddle.t) : paddle_std p -> 0 <= Paddle.speed p.
Proof.
  intros (_ & _ & Hs & _). rewrite Hs. unfold PONG_CONFIG.PADDLE_SPEED. lra.
Qed.

Lemma moveUp_std (p : Paddle.t) (deltaTime : R) :
  0 <= deltaTime -> paddle_std p -> paddle_std (Paddle.moveUp p deltaTime).
Proof.
  intros Hdt Hp. pose proof (speed_std_nonneg p Hp) as Hsp.
  destruct Hp as (Hw & Hh & Hs & Hc & Hin).
  repeat split; try assumption; now apply moveUp_in_range.
Qed.

Lemma moveDown_std (p : Paddle.t) (deltaTime : R) :
  0 <= deltaTime -> paddle_std p -> paddle_std (Paddle.moveDown p deltaTime).
Proof.
  intros Hdt Hp. pose proof (speed_std_nonneg p Hp) as Hsp.
  destruct Hp as (Hw & Hh & Hs & Hc & Hin).
  repeat split; try assumption; now apply moveDown_in_range.
Qed.

Lemma moveToward_std (p : Paddle.t) (targetY deltaTime reactionSpeed : R) :
  0 <= deltaTime -> 0 <= reactionSpeed -> paddle_std p ->
  paddle_std (Paddle.moveToward p targetY deltaTime reactionSpeed).
Proof.
  intros Hdt Hrs Hp.
  assert (0 <= deltaTime * reactionSpeed) by now apply Rmult_le_pos.
  destruct (moveToward_delegates p targetY deltaTime reactionSpeed)
    as [-> | [-> | ->]].
  - exact Hp.
  - now apply moveUp_std.
  - now apply moveDown_std.
Qed.

Lemma placed_std (p : Paddle.t) (v : R) :
  paddle_std p -> 0 <= v <= 110 -> paddle_std (Paddle.with_y p v).
Proof.
  intros (Hw & Hh & Hs & Hc & Hin) Hv.
  split; [ exact Hw | ]. split; [ exact Hh | ]. split; [ exact Hs | ].
  split; [ exact Hc | ].
  unfold Paddle.in_range. simpl. rewrite Hc, Hh. simpl.
  unfold PONG_CONFIG.PADDLE_HEIGHT. lra.
Qed.

Lemma paddle_reset_std (p : Paddle.t) :
  paddle_std p -> paddle_std (Paddle.reset p).
Proof.
  intros Hp. unfold Paddle.reset. apply placed_std; [ exact Hp | ].
  destruct Hp as (_ & Hh & _ & Hc & _). rewrite Hc, Hh. simpl.
  unfold PONG_CONFIG.PADDLE_HEIGHT. lra.
Qed.

Lemma paddle_new_std (x0 : R) :
  paddle_std (Paddle.new x0 (dim_height DEFAULT_DIMENSIONS)).
Proof.
  repeat split; unfold Paddle.in_range; simpl;
    unfold PONG_CONFIG.PADDLE_HEIGHT; lra.
Qed.

Lemma paddle_with_x_std (p : Paddle.t) (v : R) :
  paddle_std p -> paddle_std (Paddle.with_x p v).
Proof.
  intros (Hw & Hh & Hs & Hc & Hin).
  split; [ exact Hw | ]. split; [ exact Hh | ]. split; [ exact Hs | ].
  split; [ exact Hc | exact Hin ].
Qed.

Lemma isMoving_false (b : Ball.t) :
  Ball.isMoving b = false <-> Ball.vx b = 0 /\ Ball.vy b = 0.
Proof.
  unfold Ball.isMoving, Rneqb.
  rewrite orb_false_iff, !negb_false_iff, !Reqb_true. tauto.
Qed.

Lemma ball_new_std (canvasWidth : R) :
  ball_std (Ball.new canvasWidth (dim_height DEFAULT_DIMENSIONS)).
Proof.
  unfold ball_std. simpl. unfold PONG_CONFIG.BALL_SIZE.
  repeat split; try lra.
  left. apply isMoving_false. auto.
Qed.

Lemma ball_reset_std (b : Ball.t) : ball_std b -> ball_std (Ball.reset b).
Proof.
  intros (Hs & Hb & Hc & Hy & _). unfold ball_std. simpl.
  rewrite Hs, Hc. simpl. unfold PONG_CONFIG.BALL_SIZE.
  repeat split; try assumption; try lra.
  left. apply isMoving_false. auto.
Qed.

Lemma ball_launch_std (b : Ball.t) (towardPlayer : bool) (draw : R) :
  0 <= draw < 1 -> ball_std b ->
  ball_std (Ball.launch_with b towardPlayer draw).
Proof.
  intros Hdraw (Hs & Hb & Hc & Hy & _).
  assert (Hbase : 0 < Ball.baseSpeed b)
    by (rewrite Hb; unfold PONG_CONFIG.BALL_SPEED; lra).
  assert (Ha : - (PI / 4) <= (draw - 5 / 10) * PI / 2 <= PI / 4).
  { pose proof (launch_angle draw Hdraw). lra. }
  destruct (octant _ Ha) as [Hcos _].
  assert (Hprod : 0 < cos ((draw - 5 / 10) * PI / 2) * Ball.baseSpeed b)
    by now apply Rmult_lt_0_compat.
  unfold ball_std. simpl Ball.size. simpl Ball.baseSpeed.
  simpl Ball.canvasHeight. simpl Ball.y.
  repeat split; try assumption; try tauto.
  right. split.
  - simpl. destruct towardPlayer; lra.
  - assert (Hlen : Ball.currentSpeed (Ball.launch_with b towardPlayer draw)
                   = Ball.baseSpeed b).
    { unfold Ball.currentSpeed. simpl.
      apply polar_length; [ lra | destruct towardPlayer; ring ]. }
    rewrite Hlen. lra.
Qed.

Lemma ball_update_std (b : Ball.t) (deltaTime : R) :
  ball_std b -> ball_std (fst (Ball.update b deltaTime)).
Proof.
  intros (Hs & Hb & Hc & Hy & Hv).
  set (m := Ball.integrate b deltaTime).
  destruct (wall_cases m) as (_ & Hvx & Hvy & Hs' & _ & Hc' & Hb').
  change (Ball.bottomWall (Ball.topWall m))
    with (fst (Ball.update b deltaTime)) in *.
  set (b' := fst (Ball.update b deltaTime)) in *.
  simpl in Hvx, Hvy, Hs', Hc', Hb'.
  assert (Hfit : Ball.size m <= Ball.canvasHeight m).
  { simpl. rewrite Hs, Hc. simpl. unfold PONG_CONFIG.BALL_SIZE. lra. }
  pose proof (walls_between m Hfit) as Hy'.
  change (Ball.bottomWall (Ball.topWall m)) with b' in Hy'.
  simpl Ball.canvasHeight in Hy'. simpl Ball.size in Hy'.
  assert (Hsq : Ball.vy b' * Ball.vy b' = Ball.vy b * Ball.vy b)
    by (destruct Hvy as [-> | ->]; ring).
  assert (Hlen : Ball.currentSpeed b' = Ball.currentSpeed b).
  { unfold Ball.currentSpeed. now rewrite Hvx, Hsq. }
  unfold ball_std. rewrite Hs', Hb', Hc', Hlen, Hvx.
  repeat split; try assumption; try tauto.
  destruct Hv as [Hrest | Hmove]; [ left | right; exact Hmove ].
  apply isMoving_false in Hrest. destruct Hrest as [H1 H2].
  apply isMoving_false. split; [ congruence | ].
  destruct Hvy as [-> | ->]; lra.
Qed.

Lemma ball_check_std (b : Ball.t) (paddle : Paddle.t) :
  ball_std b -> paddle_std paddle ->
  ball_std (fst (Ball.checkPaddleCollision b paddle)).
Proof.
  intros Hstd (_ & Hph & _).
  pose proof Hstd as (Hs & Hb & Hc & Hy & Hv).
  destruct (Ball.overlaps b (Paddle.getBounds paddle)) eqn:Hov.
  2:{ unfold Ball.checkPaddleCollision. rewrite Hov. exact Hstd. }
  destruct (check_static b paddle) as (Hs' & _ & Hc').
  destruct (collision_fields b paddle Hov)
    as (_ & Hvx & Hvy & _ & Hy' & _ & Hb').
  assert (Hbase : 0 <= Ball.baseSpeed b)
    by (rewrite Hb; unfold PONG_CONFIG.BALL_SPEED; lra).
  pose proof (collision_speed b paddle Hbase Hov) as Hlen.
  set (b' := fst (Ball.checkPaddleCollision b paddle)) in *.
  unfold ball_std. rewrite Hs', Hb', Hc', Hy', Hlen.
  repeat split; try assumption; try tauto.
  destruct Hv as [Hrest | [Hvx0 Hsp]].
  - left. apply isMoving_false in Hrest. destruct Hrest as [H1 H2].
    unfold b'. rewrite (rest_collision b paddle H1 H2 Hbase Hov).
    apply isMoving_false. simpl. auto.
  - right.
    assert (Hsz : 0 <= Ball.size b)
      by (rewrite Hs; unfold PONG_CONFIG.BALL_SIZE; lra).
    assert (Hh : 2 * Ball.size b <= Paddle.height paddle).
    { rewrite Hs, Hph.
      unfold PONG_CONFIG.BALL_SIZE, PONG_CONFIG.PADDLE_HEIGHT. lra. }
    destruct (bounceAngle_bound b paddle Hov Hsz Hh) as [Ha1 Ha2].
    assert (Hcos : 0 < cos (bounceAngle b paddle)) by now apply cos_gt_0.
    assert (Hnew : Ball.baseSpeed b <= newSpeed b <= speedCap b).
    { unfold newSpeed, speedCap in *. split.
      - apply Rmin_glb; rewrite Hb in *;
          unfold PONG_CONFIG.BALL_SPEED in *; lra.
      - apply Rmin_r. }
    unfold speedCap in Hnew.
    split; [ | exact Hnew ].
    rewrite Hvx.
    assert (0 < newSpeed b)
      by (rewrite Hb in Hnew; unfold PONG_CONFIG.BALL_SPEED in Hnew; lra).
    assert (0 < cos (bounceAngle b paddle) * newSpeed b)
      by now apply Rmult_lt_0_compat.
    destruct (Rgtb (Ball.vx b) 0); lra.
Qed.

(** ** The controller along a game: entities *)

Lemma tail_unit (s : Random) :
  Controller.unit_draws s -> Controller.unit_draws (fun n => s (S n)).
Proof. intros H n. apply H. Qed.

Lemma steady_fields (g g' : PongGame.t) :
  PongGame.dimensions g' = PongGame.dimensions g ->
  paddle_std (PongGame.playerPaddle g') ->
  paddle_std (PongGame.aiPaddle g') ->
  ball_std (PongGame.ball g') ->
  Ball.canvasWidth (PongGame.ball g') = Ball.canvasWidth (PongGame.ball g) ->
  steady g -> steady g'.
Proof.
  intros Hd Hp Ha Hb Hw (Hh & _ & _ & _ & Hcw).
  unfold steady. rewrite Hd, Hw. auto.
Qed.

Lemma updateAI_shape (fuel : nat) (g g' : PongGame.t) (deltaTime : R)
      (s s' : Random) :
  PongGame.updateAI fuel g deltaTime s = Some (g', s') ->
  exists targetY reactionSpeed,
    0 <= reactionSpeed /\
    g' = PongGame.with_aiPaddle g
           (Paddle.moveToward (PongGame.aiPaddle g) targetY deltaTime
                              reactionSpeed) /\
    (s' = s \/ s' = fun n => s (S n)).
Proof.
  unfold PongGame.updateAI.
  destruct (Rgtb _ _).
  - destruct (PongGame.predict fuel g) as [ q | ]; [ | discriminate ].
    simpl. intros H. injection H as <- <-.
    exists (q + (s 0%nat - 5 / 10) * 20), PONG_CONFIG.AI_REACTION_SPEED.
    split; [ unfold PONG_CONFIG.AI_REACTION_SPEED; lra | auto ].
  - intros H. injection H as <- <-.
    exists (dim_height (PongGame.dimensions g) / 2),
           (PONG_CONFIG.AI_REACTION_SPEED * (5 / 10)).
    split; [ unfold PONG_CONFIG.AI_REACTION_SPEED; lra | auto ].
Qed.

Lemma handleScoring_entities (g : PongGame.t) (scored : option Edge) :
  let g' := PongGame.handleScoring g scored in
  PongGame.dimensions g' = PongGame.dimensions g /\
  PongGame.playerPaddle g' = PongGame.playerPaddle g /\
  PongGame.aiPaddle g' = PongGame.aiPaddle g /\
  PongGame.time g' = PongGame.time g /\
  (PongGame.ball g' = PongGame.ball g \/
   PongGame.ball g' = Ball.reset (PongGame.ball g)).
Proof.
  destruct scored as [ edge | ]; simpl; [ | auto 6 ].
  destruct (_ || _); simpl; auto 6.
Qed.

Lemma played_ball_std (g : PongGame.t) (paddle : Paddle.t) (deltaTime : R) :
  ball_std (PongGame.ball g) -> paddle_std (PongGame.playerPaddle g) ->
  paddle_std paddle ->
  ball_std (played_ball g paddle deltaTime).
Proof.
  intros Hb Hp Ha. unfold played_ball.
  apply ball_check_std; [ | exact Ha ].
  apply ball_check_std; [ | exact Hp ].
  now apply ball_update_std.
Qed.

Lemma updatePlaying_steady (fuel : nat) (g g' : PongGame.t) (deltaTime : R)
      (s s' : Random) :
  0 <= deltaTime -> steady g ->
  PongGame.updatePlaying fuel g deltaTime s = Some (g', s') ->
  steady g' /\ PongGame.time g' = PongGame.time g /\
  (s' = s \/ s' = fun n => s (S n)).
Proof.
  intros Hdt Hg H.
  destruct (PongGame.updateAI fuel g deltaTime s) as [ [g1 s1] | ] eqn:HAI.
  2:{ unfold PongGame.updatePlaying in H. rewrite HAI in H. discriminate. }
  destruct (updateAI_shape fuel g g1 deltaTime s s1 HAI)
    as (targetY & rs & Hrs & Hg1 & Hs1).
  rewrite Hg1 in HAI.
  rewrite (updatePlaying_eq fuel g deltaTime s s1 _ HAI) in H.
  injection H as <- <-.
  set (paddle := Paddle.moveToward (PongGame.aiPaddle g) targetY deltaTime rs)
    in *.
  pose proof Hg as (Hh & Hp & Ha & Hb & Hcw).
  assert (Hpad : paddle_std paddle) by now apply moveToward_std.
  set (g2 := PongGame.with_ball (PongGame.with_aiPaddle g paddle)
               (played_ball g paddle deltaTime)).
  match goal with
  | |- context [PongGame.handleScoring g2 ?scored] =>
      destruct (handleScoring_entities g2 scored)
        as (Hd' & Hp' & Ha' & Ht' & Hb')
  end.
  pose proof (played_ball_std g paddle deltaTime Hb Hp Hpad) as Hpb.
  destruct (played_ball_static g paddle deltaTime) as (_ & Hw & _).
  split; [ | split; [ exact Ht' | exact Hs1 ] ].
  apply (steady_fields g); [ | | | | | exact Hg ].
  - rewrite Hd'. reflexivity.
  - rewrite Hp'. exact Hp.
  - rewrite Ha'. exact Hpad.
  - destruct Hb' as [-> | ->]; [ exact Hpb | ].
    now apply ball_reset_std.
  - destruct Hb' as [-> | ->]; simpl; exact Hw.
Qed.

Lemma updateScored_steady (g : PongGame.t) (deltaTime : R) (s : Random) :
  steady g -> Controller.unit_draws s ->
  steady (fst (PongGame.updateScored g deltaTime s)) /\
  PongGame.time (fst (PongGame.updateScored g deltaTime s))
    = PongGame.time g /\
  Controller.unit_draws (snd (PongGame.updateScored g deltaTime s)).
Proof.
  intros Hg Hs. unfold PongGame.updateScored.
  destruct (Rgeb _ _); simpl.
  - split; [ | split; [ reflexivity | intros n; apply Hs ] ].
    pose proof Hg as (Hh & Hp & Ha & Hb & Hcw).
    apply (steady_fields g); try assumption; try reflexivity.
    apply (ball_launch_std _ _ _ (Hs 1%nat) Hb).
  - auto.
Qed.

Lemma deltaTime_nonneg (time now : R) :
  time <= now -> 0 <= now - (if Reqb time 0 then now else time).
Proof. intros H. destruct (Reqb time 0); lra. Qed.

Lemma input_steady (g : PongGame.t) (held : bool) (paddle : Paddle.t) :
  steady g -> paddle_std paddle ->
  steady (if held then PongGame.with_playerPaddle g paddle else g).
Proof.
  intros Hg Hp. destruct held; [ | exact Hg ].
  pose proof Hg as (Hh & _ & Ha & Hb & Hcw).
  apply (steady_fields g); try assumption; reflexivity.
Qed.

Lemma update_eq (fuel : nat) (g : PongGame.t) (now : R) (s : Random) :
  PongGame.update fuel g now s
  = match
      (if GameState_eqb (PongGame.state (afterInput g now)) PLAYING
       then PongGame.updatePlaying fuel (afterInput g now) (frameTime g now) s
       else if GameState_eqb (PongGame.state (afterInput g now)) SCORED
            then Some (PongGame.updateScored (afterInput g now)
                                             (frameTime g now) s)
            else Some (afterInput g now, s))
    with
    | None => None
    | Some (g4, s4) =>
        Some (PongGame.with_scoreDisplay g4
                (ScoreDisplay.update (PongGame.scoreDisplay g4)
                                     (frameTime g now)), s4)
    end.
Proof. reflexivity. Qed.

(** The input stage moves the player's paddle and stores the time stamp;
    everything else is as it was. *)
Lemma afterInput_frame (g : PongGame.t) (now : R) :
  let g' := afterInput g now in
  PongGame.time g' = now /\
  PongGame.dimensions g' = PongGame.dimensions g /\
  PongGame.aiPaddle g' = PongGame.aiPaddle g /\
  PongGame.ball g' = PongGame.ball g /\
  PongGame.scoreDisplay g' = PongGame.scoreDisplay g /\
  PongGame.state g' = PongGame.state g /\
  PongGame.keysPressed g' = PongGame.keysPressed g /\
  PongGame.scoreDelayTimer g' = PongGame.scoreDelayTimer g.
Proof.
  unfold afterInput. cbv zeta.
  repeat destruct (_ || _); simpl; repeat split; reflexivity.
Qed.

Lemma afterInput_paddle (g : PongGame.t) (now : R) :
  PongGame.time g <= now -> paddle_std (PongGame.playerPaddle g) ->
  paddle_std (PongGame.playerPaddle (afterInput g now)).
Proof.
  intros Ht Hp. pose proof (deltaTime_nonneg _ _ Ht) as Hdt.
  fold (frameTime g now) in Hdt.
  unfold afterInput. cbv zeta.
  destruct (_ || _); simpl; destruct (_ || _); simpl;
    repeat first [ apply moveDown_std | apply moveUp_std ]; assumption.
Qed.

Lemma afterInput_steady (g : PongGame.t) (now : R) :
  PongGame.time g <= now -> steady g -> steady (afterInput g now).
Proof.
  intros Ht Hg. pose proof Hg as (Hh & Hp & Ha & Hb & Hcw).
  destruct (afterInput_frame g now) as (_ & Hd & Ha' & Hb' & _).
  apply (steady_fields g); try assumption.
  - now apply afterInput_paddle.
  - now rewrite Ha'.
  - now rewrite Hb'.
  - now rewrite Hb'.
Qed.

Lemma update_steady (fuel : nat) (g g' : PongGame.t) (now : R)
      (s s' : Random) :
  steady g -> Controller.unit_draws s -> PongGame.time g <= now ->
  PongGame.update fuel g now s = Some (g', s') ->
  steady g' /\ Controller.unit_draws s' /\ PongGame.time g' = now.
Proof.
  intros Hg Hs Ht. rewrite update_eq.
  pose proof (deltaTime_nonneg _ _ Ht) as Hdt.
  fold (frameTime g now) in Hdt.
  set (deltaTime := frameTime g now) in *.
  pose proof (afterInput_steady g now Ht Hg) as Hg3.
  destruct (afterInput_frame g now) as (Ht3 & _).
  set (g3 := afterInput g now) in *.
  assert (Hfinal : forall g4 s4,
             steady g4 -> PongGame.time g4 = now ->
             Controller.unit_draws s4 ->
             Some (PongGame.with_scoreDisplay g4
                     (ScoreDisplay.update (PongGame.scoreDisplay g4)
                                          deltaTime), s4) = Some (g', s') ->
             steady g' /\ Controller.unit_draws s' /\ PongGame.time g' = now).
  { intros g4 s4 Hg4 Ht4 Hs4 H. injection H as <- <-.
    split; [ | split; [ exact Hs4 | exact Ht4 ] ].
    pose proof Hg4 as (Hh & Hp & Ha & Hb & Hcw).
    apply (steady_fields g4); try assumption; reflexivity. }
  destruct (GameState_eqb (PongGame.state g3) PLAYING).
  - destruct (PongGame.updatePlaying fuel g3 deltaTime s)
      as [ [g4 s4] | ] eqn:Hp; [ | discriminate ].
    destruct (updatePlaying_steady fuel g3 g4 deltaTime s s4 Hdt Hg3 Hp)
      as (Hg4 & Ht4 & Hs4).
    apply Hfinal; [ exact Hg4 | congruence | ].
    destruct Hs4 as [-> | ->]; [ exact Hs | now apply tail_unit ].
  - destruct (GameState_eqb (PongGame.state g3) SCORED).
    + destruct (updateScored_steady g3 deltaTime s Hg3 Hs)
        as (Hg4 & Ht4 & Hs4).
      destruct (PongGame.updateScored g3 deltaTime s) as [g4 s4].
      apply Hfinal; [ exact Hg4 | simpl in Ht4; congruence | exact Hs4 ].
    + apply Hfinal; assumption.
Qed.

Lemma startGame_steady (g : PongGame.t) :
  steady g ->
  steady (PongGame.startGame g) /\
  PongGame.time (PongGame.startGame g) = PongGame.time g.
Proof.
  intros Hg. pose proof Hg as (Hh & Hp & Ha & Hb & Hcw).
  unfold PongGame.startGame.
  destruct (GameState_eqb (PongGame.state g) GAME_OVER); simpl;
    (split; [ | reflexivity ]);
    apply (steady_fields g); try assumption; try reflexivity; simpl;
    try (now apply paddle_reset_std); now apply ball_reset_std.
Qed.

Lemma onKeyDown_steady (g : PongGame.t) (keyCode : Z) :
  steady g ->
  steady (PongGame.onKeyDown g keyCode) /\
  PongGame.time (PongGame.onKeyDown g keyCode) = PongGame.time g.
Proof.
  intros Hg. unfold PongGame.onKeyDown. cbv zeta.
  destruct (startGame_steady g Hg) as [Hstart Hstart_t].
  destruct (_ && _); destruct (_ || _); simpl; split;
    first [ assumption | reflexivity ].
Qed.

Lemma launchTimeout_steady (g : PongGame.t) (s : Random) :
  steady g -> Controller.unit_draws s ->
  steady (fst (PongGame.launchTimeout g s)) /\
  PongGame.time (fst (PongGame.launchTimeout g s)) = PongGame.time g /\
  Controller.unit_draws (snd (PongGame.launchTimeout g s)).
Proof.
  intros Hg Hs. unfold PongGame.launchTimeout.
  destruct (GameState_eqb _ _); simpl; [ | auto ].
  split; [ | split; [ reflexivity | intros n; apply Hs ] ].
  pose proof Hg as (Hh & Hp & Ha & Hb & Hcw).
  apply (steady_fields g); try assumption; try reflexivity.
  apply (ball_launch_std _ _ _ (Hs 1%nat) Hb).
Qed.

Lemma adjustDimensions_steady (g : PongGame.t) (offsetWidth padding : R) :
  steady g -> steady (Controller.adjustDimensions g offsetWidth padding).
Proof.
  intros (Hh & Hp & Ha & Hb & Hcw).
  unfold steady, Controller.adjustDimensions. simpl.
  split; [ exact Hh | ]. split; [ exact Hp | ].
  split; [ now apply paddle_with_x_std | ].
  split; [ | reflexivity ].
  rewrite Hh. apply ball_new_std.
Qed.

Lemma onTouchStart_steady (pg : Controller.page) (clientY : option R) :
  steady (Controller.game pg) ->
  steady (Controller.game (Controller.onTouchStart pg clientY)) /\
  PongGame.time (Controller.game (Controller.onTouchStart pg clientY))
    = PongGame.time (Controller.game pg).
Proof.
  intros Hg. unfold Controller.onTouchStart. simpl.
  destruct (_ || _); [ now apply startGame_steady | auto ].
Qed.

Lemma onTouchMove_steady (pg : Controller.page) (clientY : option R)
      (canvasTop : R) :
  steady (Controller.game pg) ->
  steady (Controller.game (Controller.onTouchMove pg clientY canvasTop)) /\
  PongGame.time (Controller.game (Controller.onTouchMove pg clientY canvasTop))
    = PongGame.time (Controller.game pg).
Proof.
  intros Hg. unfold Controller.onTouchMove.
  destruct (Controller.touchY pg); [ | auto ].
  destruct clientY as [ currentY | ]; [ | auto ].
  simpl. split; [ | reflexivity ].
  pose proof Hg as (Hh & Hp & Ha & Hb & Hcw).
  apply (steady_fields (Controller.game pg)); try assumption;
    try reflexivity.
  simpl. apply placed_std; [ exact Hp | ].
  destruct Hp as (_ & Hph & _). rewrite Hh, Hph. simpl.
  unfold PONG_CONFIG.PADDLE_HEIGHT.
  unfold Rmax, Rmin.
  repeat match goal with
         | |- context [Rle_dec ?a ?b] => destruct (Rle_dec a b)
         end; lra.
Qed.

(** ** The controller along a game: runs of events *)

Lemma step_steady (fuel : nat) (pg pg' : Controller.page) (s s' : Random)
      (e : Controller.event) :
  steady (Controller.game pg) -> Controller.unit_draws s ->
  (forall now, e = Controller.Frame now ->
               PongGame.time (Controller.game pg) <= now) ->
  Controller.step fuel pg s e = Some (pg', s') ->
  steady (Controller.game pg') /\ Controller.unit_draws s' /\
  PongGame.time (Controller.game pg')
    = time_after (PongGame.time (Controller.game pg)) e.
Proof.
  intros Hg Hs Ht.
  destruct e as [ now | k | k | cy | cy top | | | ow pad ]; simpl.
  - destruct (PongGame.update fuel (Controller.game pg) now s)
      as [ [g1 s1] | ] eqn:Hu; [ | discriminate ].
    intros H. injection H as <- <-. simpl.
    apply (update_steady fuel (Controller.game pg) g1 now s s1); auto.
  - intros H. injection H as <- <-. simpl.
    destruct (onKeyDown_steady (Controller.game pg) k Hg). auto.
  - intros H. injection H as <- <-. simpl. auto.
  - intros H. injection H as <- <-.
    destruct (onTouchStart_steady pg cy Hg). auto.
  - intros H. injection H as <- <-.
    destruct (onTouchMove_steady pg cy top Hg). auto.
  - intros H. injection H as <- <-. simpl. auto.
  - destruct (launchTimeout_steady (Controller.game pg) s Hg Hs)
      as (H1 & H2 & H3).
    destruct (PongGame.launchTimeout (Controller.game pg) s) as [g1 s1].
    intros H. injection H as <- <-. simpl in *. auto.
  - intros H. injection H as <- <-. simpl.
    split; [ now apply adjustDimensions_steady | auto ].
Qed.

Lemma timely_head (time : R) (e : Controller.event)
      (rest : list Controller.event) :
  Controller.timely time (e :: rest) ->
  (forall now, e = Controller.Frame now -> time <= now) /\
  Controller.timely (time_after time e) rest.
Proof.
  destruct e; simpl; intros H;
    try (split; [ intros now0 E; discriminate | exact H ]).
  destruct H as [H1 H2]. split; [ | exact H2 ].
  intros now0 E. injection E as <-. exact H1.
Qed.

Lemma run_steady (events : list Controller.event) :
  forall (fuel : nat) (pg pg' : Controller.page) (s s' : Random),
    steady (Controller.game pg) -> Controller.unit_draws s ->
    Controller.timely (PongGame.time (Controller.game pg)) events ->
    Controller.run fuel pg s events = Some (pg', s') ->
    steady (Controller.game pg') /\ Controller.unit_draws s'.
Proof.
  induction events as [ | e rest IH ]; intros fuel pg pg' s s' Hg Hs Ht.
  - simpl. intros H. injection H as <- <-. auto.
  - simpl.
    destruct (Controller.step fuel pg s e) as [ [pg1 s1] | ] eqn:Hstep;
      [ | discriminate ].
    destruct (timely_head _ _ _ Ht) as [Hnow Hrest].
    destruct (step_steady fuel pg pg1 s s1 e Hg Hs Hnow Hstep)
      as (Hg1 & Hs1 & Ht1).
    apply IH; try assumption. now rewrite Ht1.
Qed.

Lemma bounces_mono (fuel : nat) :
  forall (h p q : R) (fuel' : nat),
    PongGame.bounces fuel h p = Some q -> (fuel <= fuel')%nat ->
    PongGame.bounces fuel' h p = Some q.
Proof.
  induction fuel as [ | fuel IH ]; intros h p q fuel' H Hle;
    [ discriminate | ].
  destruct fuel' as [ | fuel' ]; [ lia | ].
  simpl in *. destruct (_ || _); [ | exact H ].
  apply IH; [ exact H | lia ].
Qed.

Lemma updateAI_mono (fuel fuel' : nat) (g : PongGame.t) (deltaTime : R)
      (s : Random) (r : PongGame.t * Random) :
  PongGame.updateAI fuel g deltaTime s = Some r -> (fuel <= fuel')%nat ->
  PongGame.updateAI fuel' g deltaTime s = Some r.
Proof.
  unfold PongGame.updateAI, PongGame.predict. intros H Hle.
  destruct (Rgtb _ _); [ | exact H ].
  destruct (PongGame.bounces fuel _ _) as [ q | ] eqn:Hb; [ | discriminate ].
  now rewrite (bounces_mono fuel _ _ q fuel' Hb Hle).
Qed.

Lemma updatePlaying_mono (fuel fuel' : nat) (g : PongGame.t) (deltaTime : R)
      (s : Random) (r : PongGame.t * Random) :
  PongGame.updatePlaying fuel g deltaTime s = Some r -> (fuel <= fuel')%nat ->
  PongGame.updatePlaying fuel' g deltaTime s = Some r.
Proof.
  unfold PongGame.updatePlaying. intros H Hle.
  destruct (PongGame.updateAI fuel g deltaTime s) as [ r1 | ] eqn:HAI;
    [ | discriminate ].
  now rewrite (updateAI_mono fuel fuel' g deltaTime s r1 HAI Hle).
Qed.

Lemma update_mono (fuel fuel' : nat) (g : PongGame.t) (now : R)
      (s : Random) (r : PongGame.t * Random) :
  PongGame.update fuel g now s = Some r -> (fuel <= fuel')%nat ->
  PongGame.update fuel' g now s = Some r.
Proof.
  rewrite !update_eq. intros H Hle.
  destruct (GameState_eqb _ PLAYING); [ | exact H ].
  destruct (PongGame.updatePlaying fuel _ _ _) as [ r1 | ] eqn:Hp;
    [ | discriminate ].
  now rewrite (updatePlaying_mono fuel fuel' _ _ _ r1 Hp Hle).
Qed.

Lemma step_mono (fuel fuel' : nat) (pg : Controller.page) (s : Random)
      (e : Controller.event) (r : Controller.page * Random) :
  Controller.step fuel pg s e = Some r -> (fuel <= fuel')%nat ->
  Controller.step fuel' pg s e = Some r.
Proof.
  intros H Hle. destruct e; try exact H. simpl in *.
  destruct (PongGame.update fuel _ _ _) as [ r1 | ] eqn:Hu;
    [ | discriminate ].
  now rewrite (update_mono fuel fuel' _ _ _ r1 Hu Hle).
Qed.

Lemma run_mono (events : list Controller.event) :
  forall (fuel fuel' : nat) (pg : Controller.page) (s : Random)
         (r : Controller.page * Random),
    Controller.run fuel pg s events = Some r -> (fuel <= fuel')%nat ->
    Controller.run fuel' pg s events = Some r.
Proof.
  induction events as [ | e rest IH ]; intros fuel fuel' pg s r H Hle;
    [ exact H | ].
  simpl in *.
  destruct (Controller.step fuel pg s e) as [ [pg1 s1] | ] eqn:Hstep;
    [ | discriminate ].
  rewrite (step_mono fuel fuel' pg s e _ Hstep Hle).
  now apply (IH fuel).
Qed.

Lemma updatePlaying_returns (g : PongGame.t) (deltaTime : R) (s : Random) :
  0 < dim_height (PongGame.dimensions g) ->
  exists (n : nat) (r : PongGame.t * Random),
    PongGame.updatePlaying n g deltaTime s = Some r.
Proof.
  intros Hh. destruct (updateAI_returns g deltaTime s Hh) as [n Hn].
  destruct (Hn n (Nat.le_refl n)) as (paddle & s' & HAI).
  exists n. eexists. exact (updatePlaying_eq n g deltaTime s s' paddle HAI).
Qed.

Lemma update_returns (g : PongGame.t) (now : R) (s : Random) :
  0 < dim_height (PongGame.dimensions g) ->
  exists (n : nat) (r : PongGame.t * Random),
    PongGame.update n g now s = Some r.
Proof.
  intros Hh.
  destruct (afterInput_frame g now) as (_ & Hd & _).
  destruct (updatePlaying_returns (afterInput g now) (frameTime g now) s)
    as (n & [g4 s4] & Hp); [ now rewrite Hd | ].
  exists n. rewrite update_eq.
  destruct (GameState_eqb _ PLAYING).
  - rewrite Hp. eauto.
  - destruct (GameState_eqb _ SCORED).
    + destruct (PongGame.updateScored _ _ _). eauto.
    + eauto.
Qed.

Lemma step_returns (pg : Controller.page) (s : Random)
      (e : Controller.event) :
  0 < dim_height (PongGame.dimensions (Controller.game pg)) ->
  exists (n : nat) (r : Controller.page * Random),
    Controller.step n pg s e = Some r.
Proof.
  intros Hh. destruct e; simpl; try (exists 0%nat; eauto; fail).
  - destruct (update_returns (Controller.game pg) now s Hh)
      as (n & [g1 s1] & Hu).
    exists n. rewrite Hu. eauto.
  - exists 0%nat. destruct (PongGame.launchTimeout _ _). eauto.
Qed.

Lemma steady_height (g : PongGame.t) :
  steady g -> 0 < dim_height (PongGame.dimensions g).
Proof. intros (Hh & _). rewrite Hh. simpl. lra. Qed.

(** A run of timely events from a steady game returns once the fuel is
    enough, and with the same result for all larger fuel. *)
Lemma run_returns (events : list Controller.event) :
  forall (pg : Controller.page) (s : Random),
    steady (Controller.game pg) -> Controller.unit_draws s ->
    Controller.timely (PongGame.time (Controller.game pg)) events ->
    exists (n : nat) (r : Controller.page * Random),
      forall fuel : nat, (n <= fuel)%nat ->
        Controller.run fuel pg s events = Some r.
Proof.
  induction events as [ | e rest IH ]; intros pg s Hg Hs Ht.
  - exists 0%nat, (pg, s). reflexivity.
  - destruct (step_returns pg s e (steady_height _ Hg))
      as (n1 & [pg1 s1] & Hstep).
    destruct (timely_head _ _ _ Ht) as [Hnow Hrest].
    destruct (step_steady n1 pg pg1 s s1 e Hg Hs Hnow Hstep)
      as (Hg1 & Hs1 & Ht1).
    rewrite <- Ht1 in Hrest.
    destruct (IH pg1 s1 Hg1 Hs1 Hrest) as (n2 & r & Hrun).
    exists (Nat.max n1 n2), r. intros fuel Hfuel. simpl.
    rewrite (step_mono n1 fuel pg s e _ Hstep) by lia.
    apply Hrun. lia.
Qed.

Lemma boot_steady (offsetWidth padding : R) :
  steady (Controller.boot offsetWidth padding).
Proof.
  unfold steady, Controller.boot. simpl.
  split; [ reflexivity | ].
  split; [ apply paddle_new_std | ].
  split; [ apply paddle_new_std | ].
  split; [ apply ball_new_std | reflexivity ].
Qed.

(** Every run of timely events from the page [init] leaves returns, in a
    steady game. *)
Lemma reachable_steady (offsetWidth padding : R)
      (events : list Controller.event) (s : Random) :
  Controller.unit_draws s -> Controller.timely 0 events ->
  exists (n : nat) (pg : Controller.page) (s' : Random),
    (forall fuel : nat, (n <= fuel)%nat ->
       Controller.run fuel (bootPage offsetWidth padding) s events
         = Some (pg, s')) /\
    steady (Controller.game pg).
Proof.
  intros Hs Ht.
  pose proof (boot_steady offsetWidth padding) as Hg.
  destruct (run_returns events (bootPage offsetWidth padding) s Hg Hs Ht)
    as (n & [pg s'] & Hrun).
  exists n, pg, s'. split; [ exact Hrun | ].
  apply (run_steady events n (bootPage offsetWidth padding) pg s s' Hg Hs Ht).
  apply Hrun. lia.
Qed.

(** X14: in every state the page can reach from [init] (by frames whose
    time stamps do not go back, key and touch events, the deferred launch
    and resizes) both paddles lie inside the field: [0 <= y <= 110], the
    field being 150 high and a paddle 40. *)
Theorem X14_paddles_stay_in_field :
  forall (offsetWidth padding : R) (events : list Controller.event)
         (s : Random),
    Controller.unit_draws s -> Controller.timely 0 events ->
    exists (n : nat) (pg : Controller.page) (s' : Random),
      (forall fuel : nat, (n <= fuel)%nat ->
         Controller.run fuel (bootPage offsetWidth padding) s events
           = Some (pg, s')) /\
      let g := Controller.game pg in
      Paddle.in_range (PongGame.playerPaddle g) /\
      Paddle.in_range (PongGame.aiPaddle g) /\
      0 <= Paddle.y (PongGame.playerPaddle g) <= 110 /\
      0 <= Paddle.y (PongGame.aiPaddle g) <= 110.
Proof.
  intros ow pad events s Hs Ht.
  destruct (reachable_steady ow pad events s Hs Ht)
    as (n & pg & s' & Hrun & Hg).
  exists n, pg, s'. split; [ exact Hrun | ].
  destruct Hg as (_ & (_ & Hph & _ & Hpc & Hpin) & (_ & Hah & _ & Hac & Hain)
                  & _).
  cbv zeta. split; [ exact Hpin | ]. split; [ exact Hain | ].
  unfold Paddle.in_range in Hpin, Hain.
  rewrite Hpc, Hph in Hpin. rewrite Hac, Hah in Hain.
  simpl in Hpin, Hain. unfold PONG_CONFIG.PADDLE_HEIGHT in Hpin, Hain.
  split; lra.
Qed.

Lemma X14_paddles_stay_in_field_witness :
  exists (n : nat) (pg : Controller.page) (s' : Random),
    (forall fuel : nat, (n <= fuel)%nat ->
       Controller.run fuel (bootPage 700 20) (fun _ => 3 / 10)
         [Controller.KeyDown KEY_CODES.SPACE; Controller.KeyDown KEY_CODES.UP;
          Controller.Frame 100; Controller.LaunchTimeout;
          Controller.Frame 5000; Controller.Resize 500 20;
          Controller.Frame 5016]
       = Some (pg, s')) /\
    0 <= Paddle.y (PongGame.playerPaddle (Controller.game pg)) <= 110.
Proof.
  assert (Hs : Controller.unit_draws (fun _ => 3 / 10))
    by (intros n; lra).
  assert (Ht : Controller.timely 0
                 [Controller.KeyDown KEY_CODES.SPACE;
                  Controller.KeyDown KEY_CODES.UP;
                  Controller.Frame 100; Controller.LaunchTimeout;
                  Controller.Frame 5000; Controller.Resize 500 20;
                  Controller.Frame 5016])
    by (simpl; repeat split; lra).
  destruct (X14_paddles_stay_in_field 700 20 _ _ Hs Ht)
    as (n & pg & s' & Hrun & _ & _ & Hy & _).
  exists n, pg, s'. split; [ exact Hrun | exact Hy ].
Defined.



(** ** The controller along a game: scores and state *)

Lemma GameState_eqb_true (a b : GameState) :
  GameState_eqb a b = true <-> a = b.
Proof. destruct a, b; simpl; split; congruence. Qed.

Lemma tally_fields (g g' : PongGame.t) :
  ScoreDisplay.getPlayerScore (PongGame.scoreDisplay g')
    = ScoreDisplay.getPlayerScore (PongGame.scoreDisplay g) ->
  ScoreDisplay.getAiScore (PongGame.scoreDisplay g')
    = ScoreDisplay.getAiScore (PongGame.scoreDisplay g) ->
  PongGame.state g' = PongGame.state g ->
  tally g -> tally g'.
Proof.
  intros Hp Ha Hs H. unfold tally in *. rewrite Hp, Ha, Hs. exact H.
Qed.

(** A game that is not over, with the scores it then has, stays consistent
    whatever state other than [GAME_OVER] it moves to. *)
Lemma tally_running (g g' : PongGame.t) :
  ScoreDisplay.getPlayerScore (PongGame.scoreDisplay g')
    = ScoreDisplay.getPlayerScore (PongGame.scoreDisplay g) ->
  ScoreDisplay.getAiScore (PongGame.scoreDisplay g')
    = ScoreDisplay.getAiScore (PongGame.scoreDisplay g) ->
  PongGame.state g <> GAME_OVER -> PongGame.state g' <> GAME_OVER ->
  tally g -> tally g'.
Proof.
  intros Hp Ha Hs Hs' (H1 & H2 & H3 & H4). unfold tally.
  rewrite Hp, Ha.
  split; [ exact H1 | ]. split; [ exact H2 | ]. split; [ exact H3 | ].
  split.
  - intros H. contradiction.
  - intros H. apply H4 in H. contradiction.
Qed.

Lemma handleScoring_tally (g : PongGame.t) (scored : option Edge) :
  tally g -> PongGame.state g = PLAYING ->
  tally (PongGame.handleScoring g scored).
Proof.
  intros Ht Hst. destruct scored as [ edge | ]; [ | exact Ht ].
  pose proof Ht as (Hp & Ha & Hboth & Hover).
  assert (Hrun : ~ (ScoreDisplay.getPlayerScore (PongGame.scoreDisplay g) = 11
                    \/ ScoreDisplay.getAiScore (PongGame.scoreDisplay g) = 11)%Z).
  { intros H. apply Hover in H. congruence. }
  destruct (scored_display_scores (PongGame.scoreDisplay g) edge)
    as [Hleft Hright].
  set (d' := scored_display (PongGame.scoreDisplay g) edge) in *.
  assert (Hscores :
            ((ScoreDisplay.getAiScore d'
              = ScoreDisplay.getAiScore (PongGame.scoreDisplay g) + 1 /\
              ScoreDisplay.getPlayerScore d'
              = ScoreDisplay.getPlayerScore (PongGame.scoreDisplay g)) \/
             (ScoreDisplay.getPlayerScore d'
              = ScoreDisplay.getPlayerScore (PongGame.scoreDisplay g) + 1 /\
              ScoreDisplay.getAiScore d'
              = ScoreDisplay.getAiScore (PongGame.scoreDisplay g)))%Z).
  { destruct edge; [ left; now apply Hleft | right; now apply Hright ]. }
  destruct (Z_le_gt_dec PONG_CONFIG.WINNING_SCORE
              (ScoreDisplay.getPlayerScore d')) as [Hpw | Hpl];
    [ | destruct (Z_le_gt_dec PONG_CONFIG.WINNING_SCORE
                    (ScoreDisplay.getAiScore d')) as [Haw | Hal] ].
  - rewrite (handleScoring_over g edge) by (left; exact Hpw).
    unfold tally; simpl. fold d'.
    unfold PONG_CONFIG.WINNING_SCORE in *.
    repeat split; try lia;
      try (intros; first [ reflexivity | discriminate | lia ]).
  - rewrite (handleScoring_over g edge) by (right; exact Haw).
    unfold tally; simpl. fold d'.
    unfold PONG_CONFIG.WINNING_SCORE in *.
    repeat split; try lia;
      try (intros; first [ reflexivity | discriminate | lia ]).
  - rewrite (handleScoring_pause g edge); [ | fold d'; lia | fold d'; lia ].
    unfold tally; simpl. fold d'.
    unfold PONG_CONFIG.WINNING_SCORE in *.
    repeat split; try lia;
      try (intros; first [ reflexivity | discriminate | lia ]).
Qed.

Lemma updatePlaying_tally (fuel : nat) (g g' : PongGame.t) (deltaTime : R)
      (s s' : Random) :
  tally g -> PongGame.state g = PLAYING ->
  PongGame.updatePlaying fuel g deltaTime s = Some (g', s') ->
  tally g'.
Proof.
  intros Ht Hst H.
  destruct (PongGame.updateAI fuel g deltaTime s) as [ [g1 s1] | ] eqn:HAI.
  2:{ unfold PongGame.updatePlaying in H. rewrite HAI in H. discriminate. }
  pose proof (updateAI_frame fuel g g1 deltaTime s s1 HAI) as Hg1.
  rewrite Hg1 in HAI.
  rewrite (updatePlaying_eq fuel g deltaTime s s1 _ HAI) in H.
  injection H as <- _.
  apply handleScoring_tally; [ | exact Hst ].
  apply (tally_fields g); auto.
Qed.

Lemma updateScored_tally (g : PongGame.t) (deltaTime : R) (s : Random) :
  tally g -> PongGame.state g = SCORED ->
  tally (fst (PongGame.updateScored g deltaTime s)).
Proof.
  intros Ht Hst. unfold PongGame.updateScored.
  destruct (Rgeb _ _); simpl.
  - apply (tally_running g); simpl; auto; congruence.
  - apply (tally_fields g); auto.
Qed.

Lemma update_tally (fuel : nat) (g g' : PongGame.t) (now : R)
      (s s' : Random) :
  tally g -> PongGame.update fuel g now s = Some (g', s') -> tally g'.
Proof.
  intros Ht. rewrite update_eq.
  destruct (afterInput_frame g now) as (_ & _ & _ & _ & Hd & Hst & _).
  assert (Ht3 : tally (afterInput g now))
    by (apply (tally_fields g); auto; now rewrite Hd).
  set (g3 := afterInput g now) in *.
  assert (Hfinal : forall g4 s4,
             tally g4 ->
             Some (PongGame.with_scoreDisplay g4
                     (ScoreDisplay.update (PongGame.scoreDisplay g4)
                                          (frameTime g now)), s4)
             = Some (g', s') ->
             tally g').
  { intros g4 s4 Ht4 H. injection H as <- _.
    destruct (display_update_scores (PongGame.scoreDisplay g4)
                                    (frameTime g now)) as [Hp Ha].
    apply (tally_fields g4); auto. }
  destruct (GameState_eqb (PongGame.state g3) PLAYING) eqn:Eplay.
  - apply GameState_eqb_true in Eplay.
    destruct (PongGame.updatePlaying fuel g3 (frameTime g now) s)
      as [ [g4 s4] | ] eqn:Hp; [ | discriminate ].
    apply Hfinal.
    exact (updatePlaying_tally fuel g3 g4 _ s s4 Ht3 Eplay Hp).
  - destruct (GameState_eqb (PongGame.state g3) SCORED) eqn:Escored.
    + apply GameState_eqb_true in Escored.
      pose proof (updateScored_tally g3 (frameTime g now) s Ht3 Escored)
        as Ht4.
      destruct (PongGame.updateScored g3 (frameTime g now) s) as [g4 s4].
      now apply Hfinal.
    + now apply Hfinal.
Qed.

Lemma startGame_tally (g : PongGame.t) : tally g -> tally (PongGame.startGame g).
Proof.
  intros Ht. unfold PongGame.startGame.
  destruct (GameState_eqb (PongGame.state g) GAME_OVER) eqn:E.
  - unfold tally; simpl. repeat split; try lia; intros H;
      try discriminate; lia.
  - assert (Hst : PongGame.state g <> GAME_OVER).
    { intros H. apply GameState_eqb_true in H. congruence. }
    apply (tally_running g); simpl; auto; discriminate.
Qed.

Lemma onKeyDown_tally (g : PongGame.t) (keyCode : Z) :
  tally g -> tally (PongGame.onKeyDown g keyCode).
Proof.
  intros Ht. pose proof (startGame_tally g Ht) as Hstart.
  unfold PongGame.onKeyDown. cbv zeta.
  destruct (_ && _); destruct (_ || _); simpl; assumption.
Qed.

Lemma step_tally (fuel : nat) (pg pg' : Controller.page) (s s' : Random)
      (e : Controller.event) :
  Controller.isResize e = false ->
  tally (Controller.game pg) ->
  Controller.step fuel pg s e = Some (pg', s') ->
  tally (Controller.game pg').
Proof.
  intros He Ht.
  destruct e as [ now | k | k | cy | cy top | | | ow pad ]; simpl;
    try discriminate.
  - destruct (PongGame.update fuel (Controller.game pg) now s)
      as [ [g1 s1] | ] eqn:Hu; [ | discriminate ].
    intros H. injection H as <- _. simpl.
    exact (update_tally fuel _ g1 now s s1 Ht Hu).
  - intros H. injection H as <- _. simpl. now apply onKeyDown_tally.
  - intros H. injection H as <- _. simpl. exact Ht.
  - intros H. injection H as <- _. unfold Controller.onTouchStart. simpl.
    destruct (_ || _); [ now apply startGame_tally | exact Ht ].
  - intros H. injection H as <- _. unfold Controller.onTouchMove.
    destruct (Controller.touchY pg); [ | exact Ht ].
    destruct cy; [ | exact Ht ]. simpl. exact Ht.
  - intros H. injection H as <- _. simpl. exact Ht.
  - unfold PongGame.launchTimeout.
    destruct (GameState_eqb _ _); simpl; intros H; injection H as <- _;
      simpl; exact Ht.
Qed.

Lemma run_tally (events : list Controller.event) :
  forall (fuel : nat) (pg pg' : Controller.page) (s s' : Random),
    Forall (fun e => Controller.isResize e = false) events ->
    tally (Controller.game pg) ->
    Controller.run fuel pg s events = Some (pg', s') ->
    tally (Controller.game pg').
Proof.
  induction events as [ | e rest IH ]; intros fuel pg pg' s s' Hall Ht.
  - simpl. intros H. injection H as <- _. exact Ht.
  - simpl. inversion Hall as [ | ? ? He Hrest ]; subst.
    destruct (Controller.step fuel pg s e) as [ [pg1 s1] | ] eqn:Hstep;
      [ | discriminate ].
    apply IH; auto.
    exact (step_tally fuel pg pg1 s s1 e He Ht Hstep).
Qed.

Lemma boot_tally (offsetWidth padding : R) :
  tally (Controller.boot offsetWidth padding).
Proof.
  unfold tally; simpl. repeat split; try lia;
    try (intros; first [ discriminate | lia ]).
Qed.

(** X16: as long as the page is not resized, in every state reachable from
    [init] both scores lie between 0 and 11, the state is [GAME_OVER]
    exactly when one of them is 11, never both, and the message of the
    game-over screen names the side that has the 11. *)
Theorem X16_scores_and_state_agree :
  forall (offsetWidth padding : R) (events : list Controller.event)
         (s : Random),
    Controller.unit_draws s -> Controller.timely 0 events ->
    Forall (fun e => Controller.isResize e = false) events ->
    exists (n : nat) (pg : Controller.page) (s' : Random),
      (forall fuel : nat, (n <= fuel)%nat ->
         Controller.run fuel (bootPage offsetWidth padding) s events
           = Some (pg, s')) /\
      let g := Controller.game pg in
      let p := ScoreDisplay.getPlayerScore (PongGame.scoreDisplay g) in
      let a := ScoreDisplay.getAiScore (PongGame.scoreDisplay g) in
      (0 <= p <= 11)%Z /\ (0 <= a <= 11)%Z /\
      (PongGame.state g = GAME_OVER <-> (p = 11 \/ a = 11)%Z) /\
      (PongGame.state g = GAME_OVER ->
       (Controller.prompt g = GameOverMessage true /\ p = 11 /\ a <= 10)%Z \/
       (Controller.prompt g = GameOverMessage false /\ a = 11 /\ p <= 10)%Z).
Proof.
  intros ow pad events s Hs Ht Hall.
  pose proof (boot_steady ow pad) as Hg.
  destruct (run_returns events (bootPage ow pad) s Hg Hs Ht)
    as (n & [pg s'] & Hrun).
  exists n, pg, s'. split; [ exact Hrun | ].
  assert (Htally : tally (Controller.game pg)).
  { apply (run_tally events n (bootPage ow pad) pg s s' Hall).
    - apply boot_tally.
    - apply Hrun. lia. }
  destruct Htally as (Hp & Ha & Hboth & Hover).
  cbv zeta. split; [ exact Hp | ]. split; [ exact Ha | ].
  split; [ exact Hover | ].
  intros Hst. pose proof (proj1 Hover Hst) as Hwin.
  unfold Controller.prompt. rewrite Hst. simpl.
  unfold PONG_CONFIG.WINNING_SCORE.
  destruct (Z.geb_spec
              (ScoreDisplay.getPlayerScore
                 (PongGame.scoreDisplay (Controller.game pg))) 11);
    [ left | right ]; repeat split; lia.
Qed.

Lemma X16_scores_and_state_agree_witness :
  exists (n : nat) (pg : Controller.page) (s' : Random),
    (forall fuel : nat, (n <= fuel)%nat ->
       Controller.run fuel (bootPage 700 20) (fun _ => 3 / 10)
         [Controller.KeyDown KEY_CODES.SPACE; Controller.Frame 100;
          Controller.LaunchTimeout; Controller.Frame 90000;
          Controller.Frame 92000]
       = Some (pg, s')) /\
    (0 <= ScoreDisplay.getPlayerScore
            (PongGame.scoreDisplay (Controller.game pg)) <= 11)%Z.
Proof.
  assert (Hs : Controller.unit_draws (fun _ => 3 / 10))
    by (intros n; lra).
  assert (Ht : Controller.timely 0
                 [Controller.KeyDown KEY_CODES.SPACE; Controller.Frame 100;
                  Controller.LaunchTimeout; Controller.Frame 90000;
                  Controller.Frame 92000])
    by (simpl; repeat split; lra).
  assert (Hall : Forall (fun e => Controller.isResize e = false)
                   [Controller.KeyDown KEY_CODES.SPACE; Controller.Frame 100;
                    Controller.LaunchTimeout; Controller.Frame 90000;
                    Controller.Frame 92000])
    by (repeat constructor).
  destruct (X16_scores_and_state_agree 700 20 _ _ Hs Ht Hall)
    as (n & pg & s' & Hrun & Hp & _).
  exists n, pg, s'. split; [ exact Hrun | exact Hp ].
Defined.

(** ** The controller: idle states, resizing and a stalled ball *)

Lemma update_idle (fuel : nat) (g : PongGame.t) (now : R) (s : Random) :
  PongGame.state g = WAITING \/ PongGame.state g = GAME_OVER ->
  PongGame.update fuel g now s
  = Some (PongGame.with_scoreDisplay (afterInput g now)
            (ScoreDisplay.update (PongGame.scoreDisplay g)
                                 (frameTime g now)), s).
Proof.
  intros Hst. rewrite update_eq.
  destruct (afterInput_frame g now) as (_ & _ & _ & _ & Hd & Hs & _).
  rewrite Hs.
  destruct Hst as [-> | ->]; simpl; rewrite Hd; reflexivity.
Qed.

(** X12: before the first start and after a game is over a frame does
    not touch the ball, the AI paddle, the scores, the state or the delay
    timer and draws no random number, whatever the fuel: only the time
    stamp, the player's paddle and the flash animation go on. *)
Theorem X12_idle_frames :
  forall (fuel : nat) (g : PongGame.t) (now : R) (s : Random),
    PongGame.state g = WAITING \/ PongGame.state g = GAME_OVER ->
    exists g',
      PongGame.update fuel g now s = Some (g', s) /\
      PongGame.state g' = PongGame.state g /\
      PongGame.ball g' = PongGame.ball g /\
      PongGame.aiPaddle g' = PongGame.aiPaddle g /\
      ScoreDisplay.getPlayerScore (PongGame.scoreDisplay g')
        = ScoreDisplay.getPlayerScore (PongGame.scoreDisplay g) /\
      ScoreDisplay.getAiScore (PongGame.scoreDisplay g')
        = ScoreDisplay.getAiScore (PongGame.scoreDisplay g) /\
      PongGame.scoreDelayTimer g' = PongGame.scoreDelayTimer g /\
      PongGame.dimensions g' = PongGame.dimensions g /\
      PongGame.time g' = now.
Proof.
  intros fuel g now s Hst.
  eexists. split; [ now apply update_idle | ].
  destruct (afterInput_frame g now)
    as (Ht & Hd & Ha & Hb & Hsd & Hs & _ & Htm).
  destruct (display_update_scores (PongGame.scoreDisplay g)
                                  (frameTime g now)) as [Hp Hai].
  simpl. auto 10.
Qed.

Lemma X12_idle_frames_witness :
  let g := PongGame.init DEFAULT_DIMENSIONS in
  exists g',
    PongGame.update 0 g 16 (fun _ => 0) = Some (g', fun _ => 0) /\
    PongGame.ball g' = PongGame.ball g.
Proof.
  intros g.
  assert (Hst : PongGame.state g = WAITING \/ PongGame.state g = GAME_OVER)
    by (left; reflexivity).
  destruct (X12_idle_frames 0 g 16 (fun _ => 0) Hst)
    as (g' & Hrun & _ & Hb & _).
  exists g'. split; [ exact Hrun | exact Hb ].
Defined.

Lemma updateScored_dimensions (g : PongGame.t) (deltaTime : R) (s : Random) :
  PongGame.dimensions (fst (PongGame.updateScored g deltaTime s))
    = PongGame.dimensions g.
Proof. unfold PongGame.updateScored. destruct (Rgeb _ _); reflexivity. Qed.

Lemma update_dimensions (fuel : nat) (g g' : PongGame.t) (now : R)
      (s s' : Random) :
  PongGame.update fuel g now s = Some (g', s') ->
  PongGame.dimensions g' = PongGame.dimensions g.
Proof.
  rewrite update_eq.
  destruct (afterInput_frame g now) as (_ & Hd & _).
  set (g3 := afterInput g now) in *.
  destruct (GameState_eqb (PongGame.state g3) PLAYING).
  - destruct (PongGame.updatePlaying fuel g3 (frameTime g now) s)
      as [ [g4 s4] | ] eqn:Hp; [ | discriminate ].
    intros H. injection H as <- _. simpl.
    destruct (PongGame.updateAI fuel g3 (frameTime g now) s)
      as [ [g1 s1] | ] eqn:HAI.
    2:{ unfold PongGame.updatePlaying in Hp. rewrite HAI in Hp.
        discriminate. }
    pose proof (updateAI_frame fuel g3 g1 _ s s1 HAI) as Hg1.
    rewrite Hg1 in HAI.
    rewrite (updatePlaying_eq fuel g3 _ s s1 _ HAI) in Hp.
    injection Hp as <- _.
    match goal with
    | |- context [PongGame.handleScoring ?x ?scored] =>
        destruct (handleScoring_entities x scored) as (Hd' & _)
    end.
    rewrite Hd'. exact Hd.
  - destruct (GameState_eqb (PongGame.state g3) SCORED).
    + pose proof (updateScored_dimensions g3 (frameTime g now) s) as Hd4.
      destruct (PongGame.updateScored g3 (frameTime g now) s) as [g4 s4].
      intros H. injection H as <- _. simpl in *. congruence.
    + intros H. injection H as <- _. exact Hd.
Qed.

Lemma step_dimensions (fuel : nat) (pg pg' : Controller.page) (s s' : Random)
      (e : Controller.event) :
  Controller.isResize e = false ->
  Controller.step fuel pg s e = Some (pg', s') ->
  PongGame.dimensions (Controller.game pg')
    = PongGame.dimensions (Controller.game pg).
Proof.
  intros He.
  destruct e as [ now | k | k | cy | cy top | | | ow pad ]; simpl;
    try discriminate.
  - destruct (PongGame.update fuel (Controller.game pg) now s)
      as [ [g1 s1] | ] eqn:Hu; [ | discriminate ].
    intros H. injection H as <- _. simpl.
    exact (update_dimensions fuel _ g1 now s s1 Hu).
  - intros H. injection H as <- _. simpl.
    unfold PongGame.onKeyDown, PongGame.startGame. cbv zeta.
    destruct (_ && _); destruct (_ || _); simpl;
      try destruct (GameState_eqb _ _); reflexivity.
  - intros H. injection H as <- _. reflexivity.
  - intros H. injection H as <- _.
    unfold Controller.onTouchStart, PongGame.startGame. simpl.
    destruct (_ || _); simpl; try destruct (GameState_eqb _ _); reflexivity.
  - intros H. injection H as <- _. unfold Controller.onTouchMove.
    destruct (Controller.touchY pg); [ | reflexivity ].
    destruct cy; reflexivity.
  - intros H. injection H as <- _. reflexivity.
  - unfold PongGame.launchTimeout.
    destruct (GameState_eqb _ _); simpl; intros H; injection H as <- _;
      reflexivity.
Qed.

Lemma run_width (events : list Controller.event) :
  forall (fuel : nat) (pg pg' : Controller.page) (s s' : Random),
    Controller.run fuel pg s events = Some (pg', s') ->
    let w := dim_width (PongGame.dimensions (Controller.game pg)) in
    let w' := dim_width (PongGame.dimensions (Controller.game pg')) in
    w' <= w /\
    forall offsetWidth padding,
      In (Controller.Resize offsetWidth padding) events ->
      w' <= offsetWidth - padding * 2.
Proof.
  induction events as [ | e rest IH ]; intros fuel pg pg' s s'.
  - simpl. intros H. injection H as <- _. split; [ lra | tauto ].
  - simpl.
    destruct (Controller.step fuel pg s e) as [ [pg1 s1] | ] eqn:Hstep;
      [ | discriminate ].
    intros Hrun. destruct (IH fuel pg1 pg' s1 s' Hrun) as [Hle Hin].
    assert (Hfirst :
              dim_width (PongGame.dimensions (Controller.game pg1))
              <= dim_width (PongGame.dimensions (Controller.game pg)) /\
              forall ow pad, e = Controller.Resize ow pad ->
                dim_width (PongGame.dimensions (Controller.game pg1))
                <= ow - pad * 2).
    { destruct (Controller.isResize e) eqn:He.
      - destruct e; try discriminate. simpl in Hstep.
        injection Hstep as <- _. simpl.
        split; [ apply Rmin_l | ].
        intros ow pad E. injection E as <- <-. apply Rmin_r.
      - rewrite (step_dimensions fuel pg pg1 s s1 e He Hstep).
        split; [ lra | ].
        intros ow pad E. subst e. discriminate. }
    destruct Hfirst as [H1 H2].
    split; [ lra | ].
    intros ow pad [E | Hrest].
    + specialize (H2 ow pad E). lra.
    + now apply Hin.
Qed.

(** X17: the field never widens again.  [dimensions] is the object
    [DEFAULT_DIMENSIONS], so each resize takes the minimum of the width it
    stored before and the room the container offers: after any run from
    [init] the width is at most 600 and at most what [init] and every
    resize so far were offered, also when the container has grown again. *)
Theorem X17_field_never_widens :
  forall (offsetWidth padding : R) (events : list Controller.event)
         (s : Random),
    Controller.unit_draws s -> Controller.timely 0 events ->
    exists (n : nat) (pg : Controller.page) (s' : Random),
      (forall fuel : nat, (n <= fuel)%nat ->
         Controller.run fuel (bootPage offsetWidth padding) s events
           = Some (pg, s')) /\
      let w := dim_width (PongGame.dimensions (Controller.game pg)) in
      w <= 600 /\ w <= offsetWidth - padding * 2 /\
      (forall offsetWidth' padding',
          In (Controller.Resize offsetWidth' padding') events ->
          w <= offsetWidth' - padding' * 2) /\
      Ball.canvasWidth (PongGame.ball (Controller.game pg)) = w.
Proof.
  intros ow pad events s Hs Ht.
  destruct (reachable_steady ow pad events s Hs Ht)
    as (n & pg & s' & Hrun & Hg).
  exists n, pg, s'. split; [ exact Hrun | ].
  destruct (run_width events n (bootPage ow pad) pg s s'
              (Hrun n (Nat.le_refl n))) as [Hle Hin].
  simpl in Hle.
  cbv zeta.
  pose proof (Rmin_l 600 (ow - pad * 2)) as H600.
  pose proof (Rmin_r 600 (ow - pad * 2)) as Hroom.
  split; [ lra | ]. split; [ lra | ].
  split; [ exact Hin | ]. apply Hg.
Qed.

Lemma X17_field_never_widens_witness :
  exists (n : nat) (pg : Controller.page) (s' : Random),
    (forall fuel : nat, (n <= fuel)%nat ->
       Controller.run fuel (bootPage 700 20) (fun _ => 3 / 10)
         [Controller.Resize 340 20; Controller.Frame 16;
          Controller.Resize 2000 20]
       = Some (pg, s')) /\
    dim_width (PongGame.dimensions (Controller.game pg)) <= 300.
Proof.
  assert (Hs : Controller.unit_draws (fun _ => 3 / 10))
    by (intros n; lra).
  assert (Ht : Controller.timely 0
                 [Controller.Resize 340 20; Controller.Frame 16;
                  Controller.Resize 2000 20])
    by (simpl; repeat split; lra).
  destruct (X17_field_never_widens 700 20 _ _ Hs Ht)
    as (n & pg & s' & Hrun & _ & _ & Hin & _).
  exists n, pg, s'. split; [ exact Hrun | ].
  specialize (Hin 340 20 (or_introl eq_refl)). lra.
Defined.

Lemma step_wiped (fuel : nat) (pg : Controller.page) (s : Random)
      (e : Controller.event) :
  noStart e = true -> wiped (Controller.game pg) ->
  exists pg' s',
    Controller.step fuel pg s e = Some (pg', s') /\
    wiped (Controller.game pg').
Proof.
  intros He (Hst & Hp & Ha).
  destruct e as [ now | k | k | cy | cy top | | | ow pad ]; simpl in *;
    try discriminate.
  - rewrite update_idle by (right; exact Hst).
    eexists. eexists. split; [ reflexivity | ].
    destruct (afterInput_frame (Controller.game pg) now)
      as (_ & _ & _ & _ & _ & Hs & _).
    destruct (display_update_scores
                (PongGame.scoreDisplay (Controller.game pg))
                (frameTime (Controller.game pg) now)) as [Hp' Ha'].
    unfold wiped. simpl. rewrite Hs, Hp', Ha'. auto.
  - eexists. eexists. split; [ reflexivity | ].
    unfold PongGame.onKeyDown. cbv zeta.
    apply negb_true_iff in He. rewrite He. simpl.
    destruct (_ || _); unfold wiped; simpl; auto.
  - eexists. eexists. split; [ reflexivity | ]. unfold wiped; simpl; auto.
  - eexists. eexists. split; [ reflexivity | ].
    unfold Controller.onTouchMove.
    destruct (Controller.touchY pg); [ | unfold wiped; auto ].
    destruct cy; unfold wiped; simpl; auto.
  - eexists. eexists. split; [ reflexivity | ]. unfold wiped; simpl; auto.
  - unfold PongGame.launchTimeout. rewrite Hst. simpl.
    eexists. eexists. split; [ reflexivity | ]. unfold wiped; simpl; auto.
  - eexists. eexists. split; [ reflexivity | ]. unfold wiped; simpl; auto.
Qed.

Lemma run_wiped (events : list Controller.event) :
  forall (fuel : nat) (pg : Controller.page) (s : Random),
    Forall (fun e => noStart e = true) events ->
    wiped (Controller.game pg) ->
    exists pg' s',
      Controller.run fuel pg s events = Some (pg', s') /\
      wiped (Controller.game pg').
Proof.
  induction events as [ | e rest IH ]; intros fuel pg s Hall Hw.
  - exists pg, s. auto.
  - inversion Hall as [ | ? ? He Hrest ]; subst.
    destruct (step_wiped fuel pg s e He Hw) as (pg1 & s1 & Hstep & Hw1).
    destruct (IH fuel pg1 s1 Hrest Hw1) as (pg' & s' & Hrun & Hw').
    exists pg', s'. simpl. rewrite Hstep. auto.
Qed.

(** X18: a resize replaces the score display by a new one and leaves the
    state alone.  After a resize in state [GAME_OVER] both scores read 0
    and, until the next start, every frame's game-over screen says
    "CPU WINS", also when it was the player who had reached 11. *)
Theorem X18_resize_forgets_the_winner :
  forall (fuel : nat) (pg : Controller.page) (s : Random)
         (offsetWidth padding : R) (events : list Controller.event),
    PongGame.state (Controller.game pg) = GAME_OVER ->
    Forall (fun e => noStart e = true) events ->
    exists pg' s',
      Controller.run fuel pg s
        (Controller.Resize offsetWidth padding :: events) = Some (pg', s') /\
      let g' := Controller.game pg' in
      PongGame.state g' = GAME_OVER /\
      ScoreDisplay.getPlayerScore (PongGame.scoreDisplay g') = 0%Z /\
      ScoreDisplay.getAiScore (PongGame.scoreDisplay g') = 0%Z /\
      Controller.prompt g' = GameOverMessage false /\
      ScoreDraw.gameOverMessage false = "CPU WINS"%string.
Proof.
  intros fuel pg s ow pad events Hst Hall.
  set (pg1 := Controller.mkPage
                (Controller.adjustDimensions (Controller.game pg) ow pad)
                (Controller.touchY pg)).
  assert (Hw1 : wiped (Controller.game pg1))
    by (unfold wiped; simpl; auto).
  destruct (run_wiped events fuel pg1 s Hall Hw1)
    as (pg' & s' & Hrun & (Hst' & Hp' & Ha')).
  exists pg', s'. split; [ exact Hrun | ].
  cbv zeta. split; [ exact Hst' | ]. split; [ exact Hp' | ].
  split; [ exact Ha' | ]. split; [ | reflexivity ].
  unfold Controller.prompt. rewrite Hst', Hp'. reflexivity.
Qed.

Lemma X18_resize_forgets_the_winner_witness :
  let g0 := PongGame.init DEFAULT_DIMENSIONS in
  let won :=
    PongGame.with_state
      (PongGame.with_scoreDisplay g0
         (ScoreDisplay.setPlayerScore (PongGame.scoreDisplay g0) 11))
      GAME_OVER in
  Controller.prompt won = GameOverMessage true /\
  exists pg' s',
    Controller.run 0 (Controller.mkPage won None) (fun _ => 0)
      [Controller.Resize 640 20; Controller.Frame 16] = Some (pg', s') /\
    Controller.prompt (Controller.game pg') = GameOverMessage false.
Proof.
  intros g0 won. split; [ reflexivity | ].
  assert (Hall : Forall (fun e => noStart e = true) [Controller.Frame 16])
    by (repeat constructor).
  destruct (X18_resize_forgets_the_winner 0 (Controller.mkPage won None)
              (fun _ => 0) 640 20 _ eq_refl Hall)
    as (pg' & s' & Hrun & _ & _ & _ & Hprompt & _).
  exists pg', s'. split; [ exact Hrun | exact Hprompt ].
Defined.










(** ** The controller: keys, start, touch and the AI's pace *)

Lemma has_filter (ks : list Z) (k j : Z) :
  PongGame.has (filter (fun x => negb (Z.eqb x k)) ks) j
  = PongGame.has ks j && negb (Z.eqb j k).
Proof.
  unfold PongGame.has.
  induction ks as [ | x ks IH ]; [ reflexivity | ].
  simpl. destruct (Z.eqb x k) eqn:Exk; simpl; rewrite IH.
  - apply Z.eqb_eq in Exk.
    destruct (Z.eqb j x) eqn:Ejx; simpl; [ | reflexivity ].
    apply Z.eqb_eq in Ejx.
    assert (E : Z.eqb j k = true) by (apply Z.eqb_eq; congruence).
    rewrite E. simpl. apply andb_false_r.
  - destruct (Z.eqb j x) eqn:Ejx; simpl; [ | reflexivity ].
    apply Z.eqb_eq in Ejx. apply Z.eqb_neq in Exk.
    assert (E : Z.eqb j k = false) by (apply Z.eqb_neq; congruence).
    rewrite E. reflexivity.
Qed.

Lemma has_add (ks : list Z) (k j : Z) :
  PongGame.has (if PongGame.has ks k then ks else k :: ks) j
  = Z.eqb j k || PongGame.has ks j.
Proof.
  destruct (PongGame.has ks k) eqn:Hk.
  - destruct (Z.eqb_spec j k) as [-> | Hjk]; simpl; [ exact Hk | reflexivity ].
  - reflexivity.
Qed.

(** X11: [keysPressed] is the set of movement keys that are held.  A key
    is in it after its [keydown] when it is an arrow key, W or S, and never
    after its [keyup]; no event changes whether another key is in it; a
    [keydown] of any other key leaves the set alone. *)
Theorem X11_held_keys :
  forall (g : PongGame.t) (k j : Z),
    let isMove :=
      Z.eqb k KEY_CODES.UP || Z.eqb k KEY_CODES.DOWN
      || Z.eqb k KEY_CODES.W || Z.eqb k KEY_CODES.S in
    PongGame.has (PongGame.keysPressed (PongGame.onKeyUp g k)) k = false /\
    PongGame.has (PongGame.keysPressed (PongGame.onKeyDown g k)) k
      = isMove || PongGame.has (PongGame.keysPressed g) k /\
    (j <> k ->
     PongGame.has (PongGame.keysPressed (PongGame.onKeyUp g k)) j
       = PongGame.has (PongGame.keysPressed g) j /\
     PongGame.has (PongGame.keysPressed (PongGame.onKeyDown g k)) j
       = PongGame.has (PongGame.keysPressed g) j) /\
    (isMove = false ->
     PongGame.keysPressed (PongGame.onKeyDown g k) = PongGame.keysPressed g).
Proof.
  intros g k j isMove.
  assert (Hstart : PongGame.keysPressed (PongGame.startGame g)
                   = PongGame.keysPressed g).
  { unfold PongGame.startGame.
    destruct (GameState_eqb _ _); reflexivity. }
  assert (Hdown : forall x,
             PongGame.has (PongGame.keysPressed (PongGame.onKeyDown g k)) x
             = (isMove && Z.eqb x k) || PongGame.has (PongGame.keysPressed g) x).
  { intros x. unfold PongGame.onKeyDown. cbv zeta. fold isMove.
    match goal with
    | |- context [if ?c then PongGame.startGame g else g] =>
        assert (Hg1 : PongGame.keysPressed
                        (if c then PongGame.startGame g else g)
                      = PongGame.keysPressed g)
          by (destruct c; [ exact Hstart | reflexivity ]);
        generalize dependent (if c then PongGame.startGame g else g)
    end.
    intros g1 Hg1.
    destruct isMove.
    - cbn [PongGame.keysPressed PongGame.with_keysPressed].
      rewrite has_add, Hg1. simpl. now rewrite Z.eqb_sym.
    - rewrite Hg1. reflexivity. }
  split; [ | split; [ | split ] ].
  - simpl. rewrite has_filter, Z.eqb_refl. apply andb_false_r.
  - rewrite Hdown, Z.eqb_refl, andb_true_r. reflexivity.
  - intros Hjk. split.
    + simpl. rewrite has_filter.
      destruct (Z.eqb_spec j k); [ contradiction | apply andb_true_r ].
    + rewrite Hdown.
      destruct (Z.eqb_spec j k); [ contradiction | ].
      now rewrite andb_false_r.
  - intros Hno. unfold PongGame.onKeyDown. cbv zeta. fold isMove.
    rewrite Hno. destruct (_ && _); [ exact Hstart | reflexivity ].
Qed.

Lemma X11_held_keys_witness :
  let g := PongGame.onKeyDown (PongGame.init DEFAULT_DIMENSIONS)
                              KEY_CODES.W in
  PongGame.has (PongGame.keysPressed (PongGame.onKeyUp g KEY_CODES.UP))
               KEY_CODES.W = true /\
  PongGame.keysPressed (PongGame.onKeyDown g 65) = PongGame.keysPressed g.
Proof.
  intros g.
  destruct (X11_held_keys g KEY_CODES.UP KEY_CODES.W) as (_ & _ & Hother & _).
  destruct (X11_held_keys g 65 0) as (_ & _ & _ & Hnone).
  split.
  - assert (Hne : KEY_CODES.W <> KEY_CODES.UP) by discriminate.
    destruct (Hother Hne) as [Hup _]. rewrite Hup. reflexivity.
  - apply Hnone. reflexivity.
Defined.

(** X13: a key press never restarts or alters a game in progress: in state
    [PLAYING] or [SCORED] a [keydown], the space key included, changes at
    most the set of held keys.  In state [WAITING] or [GAME_OVER] the space
    key puts the game in state [PLAYING] with the ball at rest at the centre
    and both paddles centred; the scores are put back to zero after a game
    that is over and are kept otherwise. *)
Theorem X13_start_key :
  forall g : PongGame.t,
    (PongGame.state g = PLAYING \/ PongGame.state g = SCORED ->
     forall keyCode,
       PongGame.onKeyDown g keyCode
       = PongGame.with_keysPressed g
           (PongGame.keysPressed (PongGame.onKeyDown g keyCode))) /\
    (PongGame.state g = WAITING \/ PongGame.state g = GAME_OVER ->
     let g' := PongGame.onKeyDown g KEY_CODES.SPACE in
     PongGame.state g' = PLAYING /\
     PongGame.ball g' = Ball.reset (PongGame.ball g) /\
     Ball.isMoving (PongGame.ball g') = false /\
     PongGame.playerPaddle g' = Paddle.reset (PongGame.playerPaddle g) /\
     PongGame.aiPaddle g' = Paddle.reset (PongGame.aiPaddle g) /\
     (PongGame.state g = WAITING ->
      PongGame.scoreDisplay g' = PongGame.scoreDisplay g) /\
     (PongGame.state g = GAME_OVER ->
      ScoreDisplay.getPlayerScore (PongGame.scoreDisplay g') = 0%Z /\
      ScoreDisplay.getAiScore (PongGame.scoreDisplay g') = 0%Z)).
Proof.
  intros g. split.
  - intros Hst keyCode. unfold PongGame.onKeyDown. cbv zeta.
    assert (E : GameState_eqb (PongGame.state g) WAITING
                || GameState_eqb (PongGame.state g) GAME_OVER = false)
      by (destruct Hst as [-> | ->]; reflexivity).
    rewrite E, andb_false_r. cbv iota.
    destruct (_ || _ || _ || _); [ | destruct g; reflexivity ].
    cbn [PongGame.keysPressed PongGame.with_keysPressed]. reflexivity.
  - intros Hst g'. unfold g', PongGame.onKeyDown. cbv zeta.
    assert (E : GameState_eqb (PongGame.state g) WAITING
                || GameState_eqb (PongGame.state g) GAME_OVER = true)
      by (destruct Hst as [-> | ->]; reflexivity).
    rewrite E. simpl.
    unfold PongGame.startGame.
    destruct (GameState_eqb (PongGame.state g) GAME_OVER) eqn:Eover; simpl.
    + split; [ reflexivity | ]. split; [ reflexivity | ].
      split; [ apply (reset_at_rest (PongGame.ball g)) | ].
      split; [ reflexivity | ]. split; [ reflexivity | ].
      split; [ | intros _; split; reflexivity ].
      intros Hw. rewrite Hw in Eover. discriminate.
    + split; [ reflexivity | ]. split; [ reflexivity | ].
      split; [ apply (reset_at_rest (PongGame.ball g)) | ].
      split; [ reflexivity | ]. split; [ reflexivity | ].
      split; [ reflexivity | ].
      intros Hw. rewrite Hw in Eover. discriminate.
Qed.

Lemma X13_start_key_witness :
  let g := PongGame.init DEFAULT_DIMENSIONS in
  PongGame.state (PongGame.onKeyDown g KEY_CODES.SPACE) = PLAYING /\
  PongGame.state
    (PongGame.onKeyDown (PongGame.with_state g SCORED) KEY_CODES.SPACE)
    = SCORED.
Proof.
  intros g.
  destruct (X13_start_key g) as [_ Hstart].
  destruct (X13_start_key (PongGame.with_state g SCORED)) as [Hrun _].
  split.
  - apply Hstart. left. reflexivity.
  - rewrite Hrun by (right; reflexivity). reflexivity.
Defined.

(** X20: a touch move acts only while a touch is in progress: without a
    recorded touch start, so after any touch end, it changes nothing.  With
    one it changes the height of the player paddle and nothing else; on a
    field that has room for the paddle the paddle is put with its centre at
    the finger, measured from the top of the canvas, and is held at the
    top or at the bottom of the field when the finger is closer to an edge
    than half a paddle. *)
Theorem X20_touch_moves_the_paddle :
  forall (pg : Controller.page) (currentY canvasTop : R),
    let g := Controller.game pg in
    let p := PongGame.playerPaddle g in
    let H := dim_height (PongGame.dimensions g) in
    let h := Paddle.height p in
    let finger := currentY - canvasTop in
    let pg' := Controller.onTouchMove pg (Some currentY) canvasTop in
    let p' := PongGame.playerPaddle (Controller.game pg') in
    (Controller.touchY pg = None -> pg' = pg) /\
    Controller.onTouchMove (Controller.onTouchEnd pg) (Some currentY)
                           canvasTop
      = Controller.onTouchEnd pg /\
    (Controller.touchY pg <> None ->
     h <= H ->
     pg' = Controller.mkPage
             (PongGame.with_playerPaddle g (Paddle.with_y p (Paddle.y p')))
             (Controller.touchY pg) /\
     0 <= Paddle.y p' <= H - h /\
     (h / 2 <= finger <= H - h / 2 -> Paddle.y p' + h / 2 = finger) /\
     (finger <= h / 2 -> Paddle.y p' = 0) /\
     (H - h / 2 <= finger -> Paddle.y p' = H - h)).
Proof.
  intros pg currentY canvasTop g p H h finger pg' p'.
  split; [ | split ].
  - intros Hnone. unfold pg', Controller.onTouchMove.
    rewrite Hnone. reflexivity.
  - reflexivity.
  - intros Htouch Hroom.
    unfold p', pg', Controller.onTouchMove.
    destruct (Controller.touchY pg) as [ t | ]; [ | contradiction ].
    cbv zeta. simpl.
    fold g. fold p. fold H. fold h. fold finger.
    split; [ reflexivity | ].
    unfold Rmax, Rmin.
    destruct (Rle_dec (H - h) (finger - h / 2));
      destruct (Rle_dec 0 (H - h));
      destruct (Rle_dec 0 (finger - h / 2));
      repeat split; intros; lra.
Qed.

Lemma X20_touch_moves_the_paddle_witness :
  let pg := Controller.mkPage (PongGame.init DEFAULT_DIMENSIONS) (Some 75) in
  Paddle.y (PongGame.playerPaddle
              (Controller.game (Controller.onTouchMove pg (Some 130) 100)))
  + 40 / 2 = 130 - 100.
Proof.
  intros pg.
  destruct (X20_touch_moves_the_paddle pg 130 100) as (_ & _ & Hmove).
  assert (Htouch : Controller.touchY pg <> None) by discriminate.
  assert (Hroom : Paddle.height (PongGame.playerPaddle (Controller.game pg))
                  <= dim_height (PongGame.dimensions (Controller.game pg)))
    by (simpl; unfold PONG_CONFIG.PADDLE_HEIGHT; lra).
  destruct (Hmove Htouch Hroom) as (_ & _ & Hcentre & _).
  apply Hcentre. simpl. unfold PONG_CONFIG.PADDLE_HEIGHT. lra.
Defined.



